(** * NoSleepJs: a shallow embedding of [src/index.js]

    The class [NoSleepJs] keeps a device awake through one of three
    mechanisms: the Screen Wake Lock API, a page-refresh timer for old iOS,
    or a looping video element.  The embedding keeps the instance fields and
    the part of the browser the methods touch in one record, and writes each
    method as a computation in a small state-and-exception monad, statement
    by statement. *)

From Stdlib Require Import String Ascii NArith.
From stdpp Require Import base option list.
From Stdlib Require Import Lia.

Local Open Scope string_scope.

(** ** JavaScript values used by the class *)

(** A field that holds an object reference, [null], or was never assigned. *)
Inductive JsRef (A : Type) : Type :=
  | Undefined
  | Null
  | Obj (a : A).
Arguments Undefined {A}.
Arguments Null {A}.
Arguments Obj {A} a.

(** [if (x)] on such a field: only an object reference is truthy.  Timer
    identifiers are numbers; [setInterval] returns integers greater than
    zero, so a stored identifier is truthy as well. *)
Definition truthy {A} (r : JsRef A) : bool :=
  match r with
  | Obj _ => true
  | _ => false
  end.

(** The field was assigned, be it [null] or an object. *)
Definition assigned {A} (r : JsRef A) : bool :=
  match r with
  | Undefined => false
  | _ => true
  end.

(** An error object: [err.name] and [err.message]. *)
Record JsError : Type := mkError {
  err_name : string;
  err_message : string
}.

(** Reading a property of [undefined]. *)
Definition TypeError (what : string) : JsError :=
  mkError "TypeError" ("Cannot read properties of undefined (reading '" ++ what ++ "')").

(** How the platform settles an awaited request ([wakeLock.request],
    [video.play]). *)
Inductive Answer : Type :=
  | Resolved
  | Rejected (e : JsError).

Inductive ConsoleEntry : Type :=
  | Log (s : string)
  | Warn (s : string)
  | Error (s : string)
  | ErrorWith (s : string) (e : JsError).

(** ** The browser *)

(** The only function ever registered for a sentinel's "release" event. *)
Inductive ReleaseListener : Type :=
  | OnWakeLockRelease.

Global Instance ReleaseListener_eq_dec : EqDecision ReleaseListener.
Proof. solve_decision. Defined.

(** A [WakeLockSentinel]; its identity is its position in the store. *)
Record Sentinel : Type := mkSentinel {
  released : bool;
  release_listeners : list ReleaseListener
}.

(** The callback handed to [setInterval] by [_enableOldIOS]. *)
Inductive IntervalCallback : Type :=
  | OldIOSTick.

Inductive TimeoutCallback : Type :=
  | WindowStop.

(** A recurring timer; the identifier [setInterval] returns is its position
    in the store plus one. *)
Record Interval : Type := mkInterval {
  callback : IntervalCallback;
  period_ms : N;
  cleared : bool
}.

Record Platform : Type := mkPlatform {
  wakeLock_in_navigator : bool;      (* "wakeLock" in navigator *)
  old_ios : bool;                    (* what isOldIOS() of detect.js answers *)
  document_hidden : bool;            (* document.hidden *)
  location_href : string;            (* window.location.href *)
  sentinels : list Sentinel;         (* wake locks handed out so far *)
  intervals : list Interval;         (* timers created by setInterval *)
  timeouts : list (TimeoutCallback * N);  (* pending setTimeout calls *)
  navigations : list string;         (* URLs assigned to location.href *)
  console : list ConsoleEntry
}.

(** ** Collaborators that live in other files *)

(** Modelled from the spec: [VisibilityListener] (visibility-listener.js is
    not part of the sources).  Constructing it with a callback subscribes to
    "page became visible" transitions; [removeListeners] removes every
    registered listener and is idempotent.  The callback is always
    [this.enable.bind(this)]. *)
Record VisibilityListener : Type := mkVisibilityListener {
  listening : bool
}.

(** Modelled from the spec: [NoSleepElement] (no-sleep-element.js is not
    part of the sources).  A hidden, muted, looping media surface that is
    either paused or playing; [setMetadataListener] arranges the restart at
    the end of the content. *)
Record NoSleepElement : Type := mkNoSleepElement {
  playing : bool;
  metadata_listener : bool
}.

(** ** The instance *)

Record NoSleepJs : Type := mkNoSleepJs {
  enabled : bool;
  _wakeLock : JsRef nat;
  visibilityListener : option VisibilityListener;
  noSleepTimer : JsRef nat;
  noSleepElement : option NoSleepElement
}.

Record World : Type := mkWorld {
  this : NoSleepJs;
  platform : Platform
}.

(** ** Field updates *)

Definition set_enabled_field (b : bool) (o : NoSleepJs) : NoSleepJs :=
  mkNoSleepJs b (_wakeLock o) (visibilityListener o) (noSleepTimer o) (noSleepElement o).

Definition set_wakeLock_field (r : JsRef nat) (o : NoSleepJs) : NoSleepJs :=
  mkNoSleepJs (enabled o) r (visibilityListener o) (noSleepTimer o) (noSleepElement o).

Definition set_visibilityListener_field (v : option VisibilityListener) (o : NoSleepJs) : NoSleepJs :=
  mkNoSleepJs (enabled o) (_wakeLock o) v (noSleepTimer o) (noSleepElement o).

Definition set_noSleepTimer_field (r : JsRef nat) (o : NoSleepJs) : NoSleepJs :=
  mkNoSleepJs (enabled o) (_wakeLock o) (visibilityListener o) r (noSleepElement o).

Definition set_noSleepElement_field (e : option NoSleepElement) (o : NoSleepJs) : NoSleepJs :=
  mkNoSleepJs (enabled o) (_wakeLock o) (visibilityListener o) (noSleepTimer o) e.

Definition set_capabilities (native old : bool) (p : Platform) : Platform :=
  mkPlatform native old (document_hidden p) (location_href p) (sentinels p)
             (intervals p) (timeouts p) (navigations p) (console p).

Definition set_hidden (h : bool) (p : Platform) : Platform :=
  mkPlatform (wakeLock_in_navigator p) (old_ios p) h (location_href p) (sentinels p)
             (intervals p) (timeouts p) (navigations p) (console p).

Definition set_href (u : string) (p : Platform) : Platform :=
  mkPlatform (wakeLock_in_navigator p) (old_ios p) (document_hidden p) u (sentinels p)
             (intervals p) (timeouts p) (navigations p ++ [u]) (console p).

Definition set_sentinels (l : list Sentinel) (p : Platform) : Platform :=
  mkPlatform (wakeLock_in_navigator p) (old_ios p) (document_hidden p) (location_href p) l
             (intervals p) (timeouts p) (navigations p) (console p).

Definition set_intervals (l : list Interval) (p : Platform) : Platform :=
  mkPlatform (wakeLock_in_navigator p) (old_ios p) (document_hidden p) (location_href p)
             (sentinels p) l (timeouts p) (navigations p) (console p).

Definition add_timeout (t : TimeoutCallback * N) (p : Platform) : Platform :=
  mkPlatform (wakeLock_in_navigator p) (old_ios p) (document_hidden p) (location_href p)
             (sentinels p) (intervals p) (timeouts p ++ [t]) (navigations p) (console p).

Definition add_console (c : ConsoleEntry) (p : Platform) : Platform :=
  mkPlatform (wakeLock_in_navigator p) (old_ios p) (document_hidden p) (location_href p)
             (sentinels p) (intervals p) (timeouts p) (navigations p) (console p ++ [c]).

Definition with_console (c : list ConsoleEntry) (p : Platform) : Platform :=
  mkPlatform (wakeLock_in_navigator p) (old_ios p) (document_hidden p) (location_href p)
             (sentinels p) (intervals p) (timeouts p) (navigations p) c.

Definition on_this (f : NoSleepJs -> NoSleepJs) (w : World) : World :=
  mkWorld (f (this w)) (platform w).

Definition on_platform (f : Platform -> Platform) (w : World) : World :=
  mkWorld (this w) (f (platform w)).

(** ** Computations: state plus exceptions *)

Inductive Completion (A : Type) : Type :=
  | Normal (a : A)
  | Throw (e : JsError).
Arguments Normal {A} a.
Arguments Throw {A} e.

Definition Js (A : Type) : Type := World -> Completion A * World.

Definition ret {A} (a : A) : Js A := fun w => (Normal a, w).

Definition throw {A} (e : JsError) : Js A := fun w => (Throw e, w).

Definition bind {A B} (m : Js A) (k : A -> Js B) : Js B :=
  fun w =>
    match m w with
    | (Normal a, w') => k a w'
    | (Throw e, w') => (Throw e, w')
    end.

(** [try { body } catch (err) { handler }] *)
Definition try_catch {A} (body : Js A) (handler : JsError -> Js A) : Js A :=
  fun w =>
    match body w with
    | (Normal a, w') => (Normal a, w')
    | (Throw e, w') => handler e w'
    end.

Definition get {A} (f : World -> A) : Js A := fun w => (Normal (f w), w).

Definition modify (f : World -> World) : Js unit := fun w => (Normal tt, f w).

Declare Scope js_scope.
Delimit Scope js_scope with js.
Notation "'let*' x ':=' m 'in' k" := (bind m (fun x => k))
  (at level 10, x name, m at level 100, k at level 200) : js_scope.
Notation "m1 ';;;' m2" := (bind m1 (fun _ => m2))
  (at level 100, m2 at level 200, right associativity) : js_scope.
Local Open Scope js_scope.

(** ** Browser primitives *)

Definition console_log (s : string) : Js unit := modify (on_platform (add_console (Log s))).
Definition console_warn (s : string) : Js unit := modify (on_platform (add_console (Warn s))).
Definition console_error (s : string) : Js unit := modify (on_platform (add_console (Error s))).
Definition console_error_with (s : string) (e : JsError) : Js unit :=
  modify (on_platform (add_console (ErrorWith s e))).

(** [_onWakeLockRelease()] of the class: it writes one line to the console
    and touches no field. *)
Definition _onWakeLockRelease : Js unit :=
  console_log "Wake Lock released.".

Definition run_release_listener (l : ReleaseListener) : Js unit :=
  match l with
  | OnWakeLockRelease => _onWakeLockRelease
  end.

Fixpoint dispatch_release (ls : list ReleaseListener) : Js unit :=
  match ls with
  | [] => ret tt
  | l :: ls' => run_release_listener l ;;; dispatch_release ls'
  end.

(** [await navigator.wakeLock.request("screen")]: a new sentinel, or the
    platform's rejection. *)
Definition wakeLock_request (a : Answer) : Js nat :=
  match a with
  | Resolved =>
      let* n := get (fun w => length (sentinels (platform w))) in
      modify (on_platform (fun p => set_sentinels (sentinels p ++ [mkSentinel false []]) p)) ;;;
      ret n
  | Rejected e => throw e
  end.

(** [addEventListener]: registering a listener that is already present on
    the same target is ignored. *)
Definition add_listener (l : ReleaseListener) (s : Sentinel) : Sentinel :=
  if decide (l ∈ release_listeners s) then s
  else mkSentinel (released s) (release_listeners s ++ [l]).

Definition sentinel_addEventListener (id : nat) (l : ReleaseListener) : Js unit :=
  modify (on_platform (fun p => set_sentinels (alter (add_listener l) id (sentinels p)) p)).

Definition mark_released (s : Sentinel) : Sentinel :=
  mkSentinel true (release_listeners s).

(** The lock behind sentinel [id] goes away, either through
    [sentinel.release()] or because the platform takes it back: nothing
    happens when it is already released, otherwise the "release" event
    reaches the registered listeners. *)
Definition release_sentinel (id : nat) : Js unit :=
  let* s := get (fun w => sentinels (platform w) !! id) in
  match s with
  | Some s =>
      if released s then ret tt
      else
        modify (on_platform (fun p => set_sentinels (alter mark_released id (sentinels p)) p)) ;;;
        dispatch_release (release_listeners s)
  | None => ret tt
  end.

Definition setInterval (cb : IntervalCallback) (ms : N) : Js nat :=
  let* n := get (fun w => length (intervals (platform w))) in
  modify (on_platform (fun p => set_intervals (intervals p ++ [mkInterval cb ms false]) p)) ;;;
  ret n.

Definition mark_cleared (i : Interval) : Interval :=
  mkInterval (callback i) (period_ms i) true.

Definition clearInterval (id : nat) : Js unit :=
  modify (on_platform (fun p => set_intervals (alter mark_cleared id (intervals p)) p)).

Definition setTimeout (cb : TimeoutCallback) (ms : N) : Js unit :=
  modify (on_platform (add_timeout (cb, ms))).

(** [href.split("#")[0]]: everything before the first '#'. *)
Fixpoint split_hash_0 (s : string) : string :=
  match s with
  | EmptyString => EmptyString
  | String c r => if Ascii.eqb c "#" then EmptyString else String c (split_hash_0 r)
  end.

(** ** Capability predicates *)

Definition isNativeWakeLockSupported : Js bool :=
  get (fun w => wakeLock_in_navigator (platform w)).

(** [isOldIOS()] is imported from detect.js, which is not part of the
    sources; its answer is a parameter of the browser. *)
Definition isOldIOS : Js bool :=
  get (fun w => old_ios (platform w)).

(** ** Methods of the collaborators *)

(** Modelled from the spec: [new VisibilityListener(callback)] subscribes
    the callback. *)
Definition new_VisibilityListener : Js VisibilityListener :=
  ret (mkVisibilityListener true).

(** Modelled from the spec: [removeListeners()] drops every registered
    listener, also when none is left. *)
Definition removeListeners (v : VisibilityListener) : VisibilityListener :=
  mkVisibilityListener false.

(** Modelled from the spec: [new NoSleepElement()] creates the surface,
    paused. *)
Definition new_NoSleepElement : Js NoSleepElement :=
  ret (mkNoSleepElement false false).

(** Modelled from the spec: [setMetadataListener()]. *)
Definition setMetadataListener (e : NoSleepElement) : NoSleepElement :=
  mkNoSleepElement (playing e) true.

(** Modelled from the spec: [this.noSleepElement.play()] starts playback
    when the platform allows it and fails with the platform's error
    otherwise, leaving the surface as it was.  On an instance without the
    field the property access itself throws. *)
Definition noSleepElement_play (a : Answer) : Js unit :=
  let* el := get (fun w => noSleepElement (this w)) in
  match el with
  | None => throw (TypeError "play")
  | Some e =>
      match a with
      | Resolved =>
          modify (on_this (set_noSleepElement_field (Some (mkNoSleepElement true (metadata_listener e)))))
      | Rejected err => throw err
      end
  end.

(** Modelled from the spec: [this.noSleepElement.pause()] stops playback
    and is always safe to call on the surface.  On an instance without the
    field the property access itself throws. *)
Definition noSleepElement_pause : Js unit :=
  let* el := get (fun w => noSleepElement (this w)) in
  match el with
  | None => throw (TypeError "pause")
  | Some e =>
      modify (on_this (set_noSleepElement_field (Some (mkNoSleepElement false (metadata_listener e)))))
  end.

(** ** The class *)

Definition blank : NoSleepJs := mkNoSleepJs false Undefined None Undefined None.

Definition constructor : Js unit :=
  modify (on_this (set_enabled_field false)) ;;;
  let* native := isNativeWakeLockSupported in
  if native then
    modify (on_this (set_wakeLock_field Null)) ;;;
    let* v := new_VisibilityListener in
    modify (on_this (set_visibilityListener_field (Some v)))
  else
    let* old := isOldIOS in
    if old then
      modify (on_this (set_noSleepTimer_field Null))
    else
      let* e := new_NoSleepElement in
      modify (on_this (set_noSleepElement_field (Some e))) ;;;
      modify (on_this (fun o => set_noSleepElement_field (setMetadataListener <$> noSleepElement o) o)).

Definition new_NoSleepJs (p : Platform) : World :=
  snd (constructor (mkWorld blank p)).

Definition isEnabled (w : World) : bool := enabled (this w).

Definition disable : Js unit :=
  let* native := isNativeWakeLockSupported in
  (if native then
     let* lock := get (fun w => _wakeLock (this w)) in
     match lock with
     | Obj id => release_sentinel id
     | _ => ret tt
     end ;;;
     modify (on_this (set_wakeLock_field Null)) ;;;
     let* v := get (fun w => visibilityListener (this w)) in
     match v with
     | Some v => modify (on_this (set_visibilityListener_field (Some (removeListeners v))))
     | None => ret tt
     end
   else
     let* old := isOldIOS in
     if old then
       let* t := get (fun w => noSleepTimer (this w)) in
       match t with
       | Obj id =>
           console_warn "NoSleep disabled for older iOS devices." ;;;
           clearInterval id ;;;
           modify (on_this (set_noSleepTimer_field Null))
       | _ => ret tt
       end
     else
       noSleepElement_pause) ;;;
  modify (on_this (set_enabled_field false)).

Definition _enableOldIOS : Js unit :=
  disable ;;;
  console_warn "NoSleep enabled for older iOS devices. This can interrupt active network requests." ;;;
  let* id := setInterval OldIOSTick 15000%N in
  modify (on_this (set_noSleepTimer_field (Obj id))) ;;;
  modify (on_this (set_enabled_field true)).

Definition _enableVideoPlayback (a : Answer) : Js unit :=
  try_catch
    (noSleepElement_play a ;;;
     modify (on_this (set_enabled_field true)))
    (fun err =>
       modify (on_this (set_enabled_field false)) ;;;
       console_error_with "Failed to start video playback:" err ;;;
       throw err).

(** [enable()]; the caller of an [async] method resumes once the awaited
    platform request is settled, and [a] is how the platform settles it.
    Calls do not overlap. *)
Definition enable (a : Answer) : Js unit :=
  let* native := isNativeWakeLockSupported in
  if native then
    try_catch
      (let* lock := wakeLock_request a in
       modify (on_this (set_wakeLock_field (Obj lock))) ;;;
       modify (on_this (set_enabled_field true)) ;;;
       console_log "Wake Lock active." ;;;
       let* l := get (fun w => _wakeLock (this w)) in
       match l with
       | Obj id => sentinel_addEventListener id OnWakeLockRelease
       | _ => throw (TypeError "addEventListener")
       end)
      (fun err =>
         modify (on_this (set_enabled_field false)) ;;;
         console_error (err_name err ++ ", " ++ err_message err) ;;;
         throw err)
  else
    let* old := isOldIOS in
    if old then _enableOldIOS
    else _enableVideoPlayback a.

(** ** What the browser does on its own *)

(** The arrow function given to [setInterval]. *)
Definition old_ios_tick : Js unit :=
  let* hidden := get (fun w => document_hidden (platform w)) in
  if negb hidden then
    let* href := get (fun w => location_href (platform w)) in
    modify (on_platform (set_href (split_hash_0 href))) ;;;
    setTimeout WindowStop 0%N
  else ret tt.

Definition run_interval_callback (cb : IntervalCallback) : Js unit :=
  match cb with
  | OldIOSTick => old_ios_tick
  end.

(** One period of timer [id] has elapsed. *)
Definition fire_interval (id : nat) : Js unit :=
  let* i := get (fun w => intervals (platform w) !! id) in
  match i with
  | Some i => if cleared i then ret tt else run_interval_callback (callback i)
  | None => ret tt
  end.

(** Modelled from the spec: the page becomes visible again; a subscribed
    [VisibilityListener] invokes its callback, which is [enable] bound to
    the instance.  Nobody awaits the promise the callback returns. *)
Definition page_becomes_visible (a : Answer) : Js unit :=
  modify (on_platform (set_hidden false)) ;;;
  let* v := get (fun w => visibilityListener (this w)) in
  match v with
  | Some v =>
      if listening v then try_catch (enable a) (fun _ => ret tt)
      else ret tt
  | None => ret tt
  end.

Definition page_becomes_hidden : Js unit :=
  modify (on_platform (set_hidden true)).

(** ** Histories of an instance *)

Inductive Event : Type :=
  | CallEnable (a : Answer)
  | CallDisable
  | PlatformRelease (id : nat)
  | IntervalFires (id : nat)
  | PageVisible (a : Answer)
  | PageHidden
  | CapabilitiesChange (native old : bool).

Definition handle (ev : Event) : Js unit :=
  match ev with
  | CallEnable a => enable a
  | CallDisable => disable
  | PlatformRelease id => release_sentinel id
  | IntervalFires id => fire_interval id
  | PageVisible a => page_becomes_visible a
  | PageHidden => page_becomes_hidden
  | CapabilitiesChange native old => modify (on_platform (set_capabilities native old))
  end.

Definition step (w : World) (ev : Event) : World := snd (handle ev w).

Definition run (evs : list Event) (w : World) : World := fold_left step evs w.

Definition is_capability_change (ev : Event) : bool :=
  match ev with
  | CapabilitiesChange _ _ => true
  | _ => false
  end.

(** No event of the history changes what the capability predicates answer. *)
Definition capabilities_fixed (evs : list Event) : bool :=
  forallb (fun ev => negb (is_capability_change ev)) evs.

(** ** Strategies and resources *)

Inductive Strategy : Type :=
  | Native
  | Legacy
  | Media.

(** The branch the three [if]/[else if]/[else] chains take. *)
Definition select_strategy (p : Platform) : Strategy :=
  if wakeLock_in_navigator p then Native
  else if old_ios p then Legacy
  else Media.

(** A browser in which nothing has been acquired yet. *)
Definition fresh_platform (native old hidden : bool) (href : string) : Platform :=
  mkPlatform native old hidden href [] [] [] [] [].

Definition active_sentinels (w : World) : nat :=
  length (filter (fun s => released s = false) (sentinels (platform w))).

Definition active_intervals (w : World) : nat :=
  length (filter (fun i => cleared i = false) (intervals (platform w))).

Definition media_playing (w : World) : nat :=
  match noSleepElement (this w) with
  | Some e => if playing e then 1 else 0
  | None => 0
  end.

Definition active_resources (w : World) : nat :=
  active_sentinels w + active_intervals w + media_playing w.

(** The fields the constructor populates for the strategy that the
    capability predicates select now. *)
Definition fields_populated (w : World) : bool :=
  match select_strategy (platform w) with
  | Native => assigned (_wakeLock (this w)) && bool_decide (is_Some (visibilityListener (this w)))
  | Legacy => assigned (noSleepTimer (this w))
  | Media => bool_decide (is_Some (noSleepElement (this w)))
  end.

(** What [release_sentinel] does to the browser, written out. *)
Definition released_platform (id : nat) (p : Platform) : Platform :=
  match sentinels p !! id with
  | Some s =>
      if released s then p
      else with_console
             (console p ++ map (fun _ => Log "Wake Lock released.") (release_listeners s))
             (set_sentinels (alter mark_released id (sentinels p)) p)
  | None => p
  end.

(** No listener, or a listener that has been removed. *)
Definition unsubscribed (w : World) : bool :=
  match visibilityListener (this w) with
  | Some v => negb (listening v)
  | None => true
  end.

(** ** Invariants of the three strategies *)

Definition inv_native (w : World) : Prop :=
  intervals (platform w) = [] /\
  noSleepElement (this w) = None /\
  (enabled (this w) = true ->
   exists id, _wakeLock (this w) = Obj id /\ id < length (sentinels (platform w))).

Definition inv_legacy (w : World) : Prop :=
  sentinels (platform w) = [] /\
  noSleepElement (this w) = None /\
  match noSleepTimer (this w) with
  | Obj id =>
      enabled (this w) = true /\
      (exists iv, intervals (platform w) !! id = Some iv /\ cleared iv = false) /\
      active_intervals w = 1
  | Null => enabled (this w) = false /\ active_intervals w = 0
  | Undefined => False
  end.

Definition inv_media (w : World) : Prop :=
  sentinels (platform w) = [] /\
  intervals (platform w) = [] /\
  exists e, noSleepElement (this w) = Some e /\
            (enabled (this w) = true -> playing e = true).

Definition invariant (s : Strategy) (w : World) : Prop :=
  select_strategy (platform w) = s /\
  match s with
  | Native => inv_native w
  | Legacy => inv_legacy w
  | Media => inv_media w
  end.

(** * Properties *)

Local Open Scope list_scope.

Ltac js_unfold :=
  unfold enable, disable, _enableOldIOS, _enableVideoPlayback, constructor,
    new_NoSleepJs, page_becomes_visible, page_becomes_hidden, fire_interval,
    run_interval_callback, old_ios_tick, noSleepElement_play, noSleepElement_pause,
    wakeLock_request, sentinel_addEventListener, setInterval, clearInterval,
    setTimeout, console_log, console_warn, console_error, console_error_with,
    isNativeWakeLockSupported, isOldIOS, new_VisibilityListener, new_NoSleepElement,
    try_catch, bind, ret, throw, get, modify, on_this, on_platform in *.

Ltac world_cases w :=
  let o := fresh "o" in
  let p := fresh "p" in
  destruct w as [o p]; destruct o, p.

(** ** Release events *)

Lemma dispatch_release_spec (ls : list ReleaseListener) (w : World) :
  dispatch_release ls w =
  (Normal tt,
   on_platform (fun p => with_console
     (console p ++ map (fun _ => Log "Wake Lock released.") ls) p) w).
Proof.
  revert w. induction ls as [|l ls IH]; intros w.
  - world_cases w. simpl. unfold ret, on_platform, with_console. simpl.
    by rewrite app_nil_r.
  - destruct l. simpl. unfold _onWakeLockRelease. js_unfold. simpl.
    rewrite IH. world_cases w. unfold on_platform, with_console. simpl.
    by rewrite <- app_assoc.
Qed.

Lemma release_sentinel_spec (id : nat) (w : World) :
  release_sentinel id w = (Normal tt, on_platform (released_platform id) w).
Proof.
  unfold release_sentinel, released_platform. js_unfold. simpl.
  destruct (sentinels (platform w) !! id) as [s|] eqn:Hs.
  - destruct (released s).
    + by world_cases w.
    + rewrite dispatch_release_spec. by world_cases w.
  - by world_cases w.
Qed.

Lemma released_platform_capabilities (id : nat) (p : Platform) :
  wakeLock_in_navigator (released_platform id p) = wakeLock_in_navigator p /\
  old_ios (released_platform id p) = old_ios p /\
  intervals (released_platform id p) = intervals p /\
  document_hidden (released_platform id p) = document_hidden p.
Proof.
  unfold released_platform.
  destruct (sentinels p !! id) as [s|]; [destruct (released s)|]; done.
Qed.

(** ** The methods, branch by branch *)

Section Branches.
Variable w : World.

Abbreviation o := (this w).
Abbreviation p := (platform w).

Lemma disable_native :
  wakeLock_in_navigator p = true ->
  disable w =
  (Normal tt,
   mkWorld
     (mkNoSleepJs false Null (removeListeners <$> visibilityListener o)
                  (noSleepTimer o) (noSleepElement o))
     (match _wakeLock o with
      | Obj id => released_platform id p
      | _ => p
      end)).
Proof.
  world_cases w. simpl. intros ->. js_unfold. simpl.
  destruct _wakeLock0 as [| |id]; simpl.
  - by destruct visibilityListener0.
  - by destruct visibilityListener0.
  - rewrite release_sentinel_spec. simpl. by destruct visibilityListener0.
Qed.

Lemma disable_legacy :
  wakeLock_in_navigator p = false -> old_ios p = true ->
  disable w =
  (Normal tt,
   match noSleepTimer o with
   | Obj id =>
       mkWorld
         (mkNoSleepJs false (_wakeLock o) (visibilityListener o) Null (noSleepElement o))
         (set_intervals (alter mark_cleared id (intervals p))
            (add_console (Warn "NoSleep disabled for older iOS devices.") p))
   | _ => mkWorld (set_enabled_field false o) p
   end).
Proof.
  world_cases w. simpl. intros -> ->. js_unfold. simpl.
  by destruct noSleepTimer0.
Qed.

Lemma disable_media :
  wakeLock_in_navigator p = false -> old_ios p = false ->
  disable w =
  match noSleepElement o with
  | Some e =>
      (Normal tt,
       mkWorld
         (mkNoSleepJs false (_wakeLock o) (visibilityListener o) (noSleepTimer o)
                      (Some (mkNoSleepElement false (metadata_listener e))))
         p)
  | None => (Throw (TypeError "pause"), w)
  end.
Proof.
  world_cases w. simpl. intros -> ->. js_unfold. simpl.
  by destruct noSleepElement0.
Qed.

Lemma enable_native_resolved :
  wakeLock_in_navigator p = true ->
  enable Resolved w =
  (Normal tt,
   mkWorld
     (mkNoSleepJs true (Obj (length (sentinels p))) (visibilityListener o)
                  (noSleepTimer o) (noSleepElement o))
     (set_sentinels (sentinels p ++ [mkSentinel false [OnWakeLockRelease]])
        (add_console (Log "Wake Lock active.") p))).
Proof.
  world_cases w. simpl. intros ->. js_unfold. simpl.
  replace (length sentinels0) with (length sentinels0 + 0) at 2 by lia.
  by rewrite alter_app_r.
Qed.

Lemma enable_native_rejected (e : JsError) :
  wakeLock_in_navigator p = true ->
  enable (Rejected e) w =
  (Throw e,
   mkWorld (set_enabled_field false o)
     (add_console (Error (err_name e ++ ", " ++ err_message e)) p)).
Proof.
  world_cases w. simpl. intros ->. by js_unfold.
Qed.

Lemma enable_legacy (a : Answer) :
  wakeLock_in_navigator p = false -> old_ios p = true ->
  enable a w =
  (Normal tt,
   let w' := snd (disable w) in
   mkWorld
     (mkNoSleepJs true (_wakeLock o) (visibilityListener o)
                  (Obj (length (intervals (platform w')))) (noSleepElement o))
     (set_intervals (intervals (platform w') ++ [mkInterval OldIOSTick 15000 false])
        (add_console
           (Warn "NoSleep enabled for older iOS devices. This can interrupt active network requests.")
           (platform w')))).
Proof.
  world_cases w. simpl. intros -> ->. js_unfold. simpl.
  by destruct noSleepTimer0.
Qed.

Lemma enable_media (a : Answer) :
  wakeLock_in_navigator p = false -> old_ios p = false ->
  enable a w =
  match noSleepElement o, a with
  | Some e, Resolved =>
      (Normal tt,
       mkWorld
         (mkNoSleepJs true (_wakeLock o) (visibilityListener o) (noSleepTimer o)
                      (Some (mkNoSleepElement true (metadata_listener e))))
         p)
  | Some e, Rejected err =>
      (Throw err,
       mkWorld (set_enabled_field false o)
         (add_console (ErrorWith "Failed to start video playback:" err) p))
  | None, _ =>
      (Throw (TypeError "play"),
       mkWorld (set_enabled_field false o)
         (add_console (ErrorWith "Failed to start video playback:" (TypeError "play")) p))
  end.
Proof.
  world_cases w. simpl. intros -> ->. js_unfold. simpl.
  destruct noSleepElement0; [destruct a|]; done.
Qed.
End Branches.

(** ** The methods never change what the capability predicates answer *)

Lemma disable_capabilities (w : World) :
  wakeLock_in_navigator (platform (snd (disable w))) = wakeLock_in_navigator (platform w) /\
  old_ios (platform (snd (disable w))) = old_ios (platform w).
Proof.
  destruct (wakeLock_in_navigator (platform w)) eqn:Hn;
    [|destruct (old_ios (platform w)) eqn:Ho].
  - rewrite disable_native by done. simpl.
    destruct (_wakeLock (this w)); try done.
    destruct (released_platform_capabilities a (platform w)) as (-> & -> & _). done.
  - rewrite disable_legacy by done. by destruct (noSleepTimer (this w)).
  - rewrite disable_media by done. by destruct (noSleepElement (this w)).
Qed.

Lemma enable_capabilities (a : Answer) (w : World) :
  wakeLock_in_navigator (platform (snd (enable a w))) = wakeLock_in_navigator (platform w) /\
  old_ios (platform (snd (enable a w))) = old_ios (platform w).
Proof.
  destruct (wakeLock_in_navigator (platform w)) eqn:Hn;
    [|destruct (old_ios (platform w)) eqn:Ho].
  - destruct a; [rewrite enable_native_resolved by done
                |rewrite enable_native_rejected by done]; done.
  - rewrite enable_legacy by done. simpl.
    destruct (disable_capabilities w) as [-> ->]. done.
  - rewrite enable_media by done. by destruct (noSleepElement (this w)), a.
Qed.

(** ** Counting what is still active *)

Section Counting.
Context {A : Type} (P : A -> Prop) `{!forall x, Decision (P x)} (f : A -> A).
Hypothesis f_kills : forall x, ~ P (f x).

Lemma filter_alter_le (l : list A) (i : nat) :
  length (filter P (alter f i l)) <= length (filter P l).
Proof.
  revert i. induction l as [|x l IH]; intros [|i]; simpl; try done.
  - rewrite !filter_cons. destruct (decide (P (f x))) as [Hfx|_]; [by apply f_kills in Hfx|].
    destruct (decide (P x)); simpl; lia.
  - rewrite !filter_cons. specialize (IH i).
    change (alter f i l) with (list_alter f i l) in IH.
    destruct (decide (P x)); simpl; lia.
Qed.

Lemma filter_alter_hit (l : list A) (i : nat) (x : A) :
  l !! i = Some x -> P x ->
  S (length (filter P (alter f i l))) = length (filter P l).
Proof.
  revert i. induction l as [|y l IH]; intros [|i]; simpl; try done.
  - intros [= ->] Hx. rewrite !filter_cons.
    destruct (decide (P (f x))) as [Hfx|_]; [by apply f_kills in Hfx|].
    by rewrite decide_True.
  - intros Hl Hx. rewrite !filter_cons. specialize (IH i Hl Hx).
    change (alter f i l) with (list_alter f i l) in IH.
    destruct (decide (P y)); simpl; lia.
Qed.
End Counting.

Lemma mark_released_inactive (s : Sentinel) : ~ released (mark_released s) = false.
Proof. done. Qed.

Lemma mark_cleared_inactive (i : Interval) : ~ cleared (mark_cleared i) = false.
Proof. done. Qed.

Lemma released_platform_active_le (id : nat) (p : Platform) :
  length (filter (fun s => released s = false) (sentinels (released_platform id p))) <=
  length (filter (fun s => released s = false) (sentinels p)).
Proof.
  unfold released_platform.
  destruct (sentinels p !! id) as [s|]; [destruct (released s)|]; simpl;
    try apply Nat.le_refl.
  apply filter_alter_le, mark_released_inactive.
Qed.

Lemma released_platform_lookup (id j : nat) (p : Platform) :
  released <$> sentinels (released_platform id p) !! j =
  (fun s => if decide (id = j) then true else released s) <$> sentinels p !! j.
Proof.
  unfold released_platform.
  destruct (sentinels p !! id) as [s|] eqn:Hs.
  - destruct (released s) eqn:Hr; simpl.
    + destruct (decide (id = j)) as [->|]; [by rewrite Hs; simpl; rewrite Hr|].
      by destruct (sentinels p !! j).
    + rewrite list_lookup_alter. destruct (decide (id = j)) as [->|].
      * by rewrite Hs.
      * by destruct (sentinels p !! j).
  - destruct (decide (id = j)) as [->|]; [by rewrite Hs|].
    by destruct (sentinels p !! j).
Qed.

Lemma released_platform_length (id : nat) (p : Platform) :
  length (sentinels (released_platform id p)) = length (sentinels p).
Proof.
  unfold released_platform.
  destruct (sentinels p !! id) as [s|]; [destruct (released s)|]; simpl; try done.
  by rewrite length_alter.
Qed.

(** ** Platform release events *)

(** C3, as the code has it: when the platform releases a sentinel, the
    instance is left exactly as it was, so [isEnabled] keeps its value (it
    stays true on an enabled instance); the sentinel is marked released,
    the handler writes its console line, no new lock is requested and no
    timer is touched. *)
Theorem platform_release_only_logs (w : World) (id : nat) :
  let w' := step w (PlatformRelease id) in
  this w' = this w /\
  isEnabled w' = isEnabled w /\
  length (sentinels (platform w')) = length (sentinels (platform w)) /\
  intervals (platform w') = intervals (platform w) /\
  released <$> sentinels (platform w') !! id =
    (fun _ => true) <$> sentinels (platform w) !! id /\
  _onWakeLockRelease w = (Normal tt, on_platform (add_console (Log "Wake Lock released.")) w).
Proof.
  unfold step, isEnabled. simpl. rewrite release_sentinel_spec. simpl.
  split; [done|]. split; [done|].
  split; [apply released_platform_length|].
  split; [apply released_platform_capabilities|].
  split; [|done].
  rewrite released_platform_lookup.
  destruct (sentinels (platform w) !! id); simpl; [|done].
  by rewrite decide_True.
Qed.

(** C3, counterexample: a granted lock is released by the platform while
    the instance is enabled; [isEnabled] still answers true although the
    only sentinel is released. *)
Lemma release_leaves_enabled_true :
  let w := run [CallEnable Resolved; PlatformRelease 0]
               (new_NoSleepJs (fresh_platform true false false "https://example.org/")) in
  isEnabled w = true /\
  _wakeLock (this w) = Obj 0 /\
  released <$> sentinels (platform w) !! 0 = Some true /\
  ~ isEnabled w = false.
Proof. vm_compute. repeat split; discriminate. Qed.

(** ** Two successful [enable] calls in a row *)

(** C10: under the native strategy, two granted [enable()] calls without a
    [disable()] between them leave the first sentinel unreleased and store
    the second one in its place; each sentinel carries its own release
    listener; a following [disable()] releases the second sentinel only. *)
Theorem double_enable_keeps_first_lock (w : World) :
  wakeLock_in_navigator (platform w) = true ->
  let n := length (sentinels (platform w)) in
  let w1 := snd (enable Resolved w) in
  let w2 := snd (enable Resolved w1) in
  let w3 := snd (disable w2) in
  (_wakeLock (this w1) = Obj n /\ _wakeLock (this w2) = Obj (S n)) /\
  (sentinels (platform w1) !! n = Some (mkSentinel false [OnWakeLockRelease]) /\
   sentinels (platform w2) !! n = Some (mkSentinel false [OnWakeLockRelease]) /\
   sentinels (platform w2) !! S n = Some (mkSentinel false [OnWakeLockRelease])) /\
  (_wakeLock (this w3) = Null /\
   sentinels (platform w3) !! n = Some (mkSentinel false [OnWakeLockRelease]) /\
   sentinels (platform w3) !! S n = Some (mkSentinel true [OnWakeLockRelease])) /\
  active_sentinels w3 = S (active_sentinels w).
Proof.
  intros Hn n w1 w2 w3. subst w1 w2 w3.
  rewrite (enable_native_resolved w) by done. simpl.
  rewrite enable_native_resolved by done. simpl.
  rewrite disable_native by done. simpl.
  rewrite length_app. simpl. fold n. replace (n + 1) with (S n) by lia.
  set (s := mkSentinel false [OnWakeLockRelease]).
  assert (H0 : (sentinels (platform w) ++ [s]) !! n = Some s)
    by (apply list_lookup_middle; done).
  assert (H1 : ((sentinels (platform w) ++ [s]) ++ [s]) !! S n = Some s)
    by (apply list_lookup_middle; rewrite length_app; simpl; lia).
  assert (H2 : ((sentinels (platform w) ++ [s]) ++ [s]) !! n = Some s).
  { rewrite lookup_app_l; [done|]. rewrite length_app. simpl. lia. }
  split; [done|]. split; [done|].
  unfold released_platform, active_sentinels. simpl. rewrite H1. simpl.
  split.
  - split; [done|].
    rewrite !list_lookup_alter, H1, H2.
    rewrite decide_False by lia. by rewrite decide_True.
  - replace (S n) with (length (sentinels (platform w) ++ [s]) + 0)
      by (rewrite length_app; simpl; lia).
    rewrite alter_app_r. simpl.
    rewrite !filter_app, !length_app. simpl. lia.
Qed.

Lemma double_enable_keeps_first_lock_witness :
  let w := new_NoSleepJs (fresh_platform true false false "https://example.org/") in
  let w3 := snd (disable (snd (enable Resolved (snd (enable Resolved w))))) in
  wakeLock_in_navigator (platform w) = true /\
  _wakeLock (this w3) = Null /\
  sentinels (platform w3) !! 0 = Some (mkSentinel false [OnWakeLockRelease]) /\
  sentinels (platform w3) !! 1 = Some (mkSentinel true [OnWakeLockRelease]).
Proof.
  intros w w3. split; [reflexivity|].
  exact (proj1 (proj2 (proj2 (double_enable_keeps_first_lock w eq_refl)))).
Defined.

(** ** [enable] followed by [disable] *)




(** ** The old-iOS refresh timer *)

Lemma split_hash_0_prefix (u : string) :
  exists rest, u = (split_hash_0 u ++ rest)%string /\
               (rest = EmptyString \/ exists r, rest = String "#" r).
Proof.
  induction u as [|c u (rest & Hu & Hrest)]; simpl.
  - exists EmptyString. auto.
  - destruct (Ascii.eqb_spec c "#") as [->|Hc].
    + exists (String "#" u). eauto.
    + exists rest. simpl. split; [congruence | done].
Qed.

Lemma split_hash_0_no_hash (u : string) (n : nat) :
  String.get n (split_hash_0 u) <> Some "#"%char.
Proof.
  revert n. induction u as [|c u IH]; intros n; simpl; [by destruct n|].
  destruct (Ascii.eqb_spec c "#") as [->|Hc]; [by destruct n|].
  destruct n as [|n]; simpl; [congruence | apply IH].
Qed.

Lemma split_hash_0_no_fragment (u : string) :
  (forall n, String.get n u <> Some "#"%char) -> split_hash_0 u = u.
Proof.
  induction u as [|c u IH]; intros Hu; simpl; [done|].
  destruct (Ascii.eqb_spec c "#") as [->|Hc]; [by specialize (Hu 0)|].
  f_equal. apply IH. intros n. apply (Hu (S n)).
Qed.

Lemma fire_interval_spec (w : World) (id : nat) (iv : Interval) :
  intervals (platform w) !! id = Some iv ->
  cleared iv = false ->
  fire_interval id w =
  (Normal tt,
   if document_hidden (platform w) then w
   else on_platform
          (fun p => add_timeout (WindowStop, 0%N) (set_href (split_hash_0 (location_href p)) p))
          w).
Proof.
  intros Hi Hc. js_unfold. simpl. rewrite Hi, Hc. destruct iv as [[] ? ?]. simpl.
  by destruct (document_hidden (platform w)).
Qed.

(** C8: under the old-iOS strategy [enable()] always returns normally,
    whatever the platform would answer to a request; it first runs
    [disable()], then adds a timer of period 15000 ms running the refresh
    callback, stores its identifier and sets [enabled] to true.  When such a
    timer fires while the page is hidden nothing changes; when it fires
    while the page is visible, the location is set to the URL cut before
    its first '#', that assignment is recorded as a navigation, and
    [window.stop] is scheduled with delay 0; the instance is untouched. *)
Theorem legacy_enable_starts_refresh_timer (w : World) (a : Answer) :
  select_strategy (platform w) = Legacy ->
  let w0 := snd (disable w) in
  let w1 := snd (enable a w) in
  fst (enable a w) = Normal tt /\
  isEnabled w1 = true /\
  fst (disable w) = Normal tt /\
  intervals (platform w1) = intervals (platform w0) ++ [mkInterval OldIOSTick 15000 false] /\
  noSleepTimer (this w1) = Obj (length (intervals (platform w0))) /\
  intervals (platform w1) !! length (intervals (platform w0)) =
    Some (mkInterval OldIOSTick 15000 false) /\
  (forall id iv, noSleepTimer (this w) = Obj id ->
     intervals (platform w) !! id = Some iv ->
     cleared <$> intervals (platform w1) !! id = Some true) /\
  (forall (w' : World) (id : nat) (iv : Interval),
     intervals (platform w') !! id = Some iv ->
     cleared iv = false ->
     let w'' := step w' (IntervalFires id) in
     this w'' = this w' /\
     (document_hidden (platform w') = true -> w'' = w') /\
     (document_hidden (platform w') = false ->
        let u := split_hash_0 (location_href (platform w')) in
        location_href (platform w'') = u /\
        navigations (platform w'') = navigations (platform w') ++ [u] /\
        timeouts (platform w'') = timeouts (platform w') ++ [(WindowStop, 0%N)] /\
        (forall n, String.get n u <> Some "#"%char) /\
        (exists rest, location_href (platform w') = (u ++ rest)%string /\
                      (rest = EmptyString \/ exists r, rest = String "#" r)))).
Proof.
  unfold select_strategy, isEnabled. intros Hsel.
  destruct (wakeLock_in_navigator (platform w)) eqn:Hn; [done|].
  destruct (old_ios (platform w)) eqn:Ho; [|done].
  rewrite enable_legacy by done. simpl.
  do 2 (split; [done|]).
  split; [by rewrite disable_legacy|].
  split; [done|]. split; [done|].
  split; [by apply list_lookup_middle|].
  split.
  - intros id iv Hid Hiv. rewrite disable_legacy, Hid by done. simpl.
    rewrite lookup_app_l by (rewrite length_alter; by eapply lookup_lt_Some).
    by rewrite list_lookup_alter, Hiv, decide_True.
  - intros w' id iv Hi Hc. unfold step. simpl.
    rewrite (fire_interval_spec w' id iv Hi Hc). simpl.
    destruct (document_hidden (platform w')) eqn:Hh; simpl.
    + done.
    + split; [done|]. split; [done|]. intros _.
      do 3 (split; [done|]).
      split; [apply split_hash_0_no_hash | apply split_hash_0_prefix].
Qed.

Lemma legacy_enable_starts_refresh_timer_witness :
  let w := new_NoSleepJs (fresh_platform false true false "https://example.org/page#section") in
  let w1 := snd (enable Resolved w) in
  let w2 := step w1 (IntervalFires 0) in
  select_strategy (platform w) = Legacy /\
  isEnabled w1 = true /\
  noSleepTimer (this w1) = Obj 0 /\
  location_href (platform w2) = "https://example.org/page" /\
  timeouts (platform w2) = [(WindowStop, 0%N)].
Proof.
  intros w w1 w2.
  pose proof (legacy_enable_starts_refresh_timer w Resolved eq_refl)
    as (_ & Hen & _ & _ & Ht & Hl & _ & Htick).
  destruct (Htick w1 0 _ Hl eq_refl) as (_ & _ & Hvis).
  destruct (Hvis eq_refl) as (Hhref & _ & Hto & _).
  split; [reflexivity|]. split; [exact Hen|]. split; [exact Ht|].
  split; [exact Hhref | exact Hto].
Defined.

(** ** The visibility subscription *)

Lemma page_becomes_visible_spec (a : Answer) (w : World) :
  page_becomes_visible a w =
  (Normal tt,
   let w' := on_platform (set_hidden false) w in
   match visibilityListener (this w) with
   | Some v => if listening v then snd (enable a w') else w'
   | None => w'
   end).
Proof.
  unfold page_becomes_visible, bind, modify, get, try_catch, ret. simpl.
  destruct (visibilityListener (this w)) as [[[]]|]; simpl; try done.
  by destruct (enable a (on_platform (set_hidden false) w)) as [[[]|e] w''].
Qed.

Lemma fire_interval_frame (id : nat) (w : World) :
  fst (fire_interval id w) = Normal tt /\
  this (snd (fire_interval id w)) = this w /\
  sentinels (platform (snd (fire_interval id w))) = sentinels (platform w) /\
  intervals (platform (snd (fire_interval id w))) = intervals (platform w) /\
  wakeLock_in_navigator (platform (snd (fire_interval id w))) = wakeLock_in_navigator (platform w) /\
  old_ios (platform (snd (fire_interval id w))) = old_ios (platform w).
Proof.
  js_unfold. simpl.
  destruct (intervals (platform w) !! id) as [[[] ? []]|]; simpl; try done.
  by destruct (document_hidden (platform w)).
Qed.

(** [enable] neither subscribes nor unsubscribes. *)
Lemma enable_visibilityListener (a : Answer) (w : World) :
  visibilityListener (this (snd (enable a w))) = visibilityListener (this w).
Proof.
  destruct (wakeLock_in_navigator (platform w)) eqn:Hn;
    [|destruct (old_ios (platform w)) eqn:Ho].
  - destruct a; [rewrite enable_native_resolved by done
                |rewrite enable_native_rejected by done]; done.
  - by rewrite enable_legacy.
  - rewrite enable_media by done. by destruct (noSleepElement (this w)), a.
Qed.

Lemma disable_visibilityListener (w : World) :
  visibilityListener (this (snd (disable w))) =
  if wakeLock_in_navigator (platform w)
  then removeListeners <$> visibilityListener (this w)
  else visibilityListener (this w).
Proof.
  destruct (wakeLock_in_navigator (platform w)) eqn:Hn;
    [|destruct (old_ios (platform w)) eqn:Ho].
  - by rewrite disable_native.
  - rewrite disable_legacy by done. by destruct (noSleepTimer (this w)).
  - rewrite disable_media by done. by destruct (noSleepElement (this w)).
Qed.

Lemma step_unsubscribed (w : World) (ev : Event) :
  unsubscribed w = true -> unsubscribed (step w ev) = true.
Proof.
  unfold unsubscribed, step. destruct ev as [a| |id|id|a| |n o]; simpl.
  - by rewrite enable_visibilityListener.
  - rewrite disable_visibilityListener.
    destruct (wakeLock_in_navigator (platform w)); [|done].
    by destruct (visibilityListener (this w)).
  - by rewrite release_sentinel_spec.
  - by rewrite (proj1 (proj2 (fire_interval_frame id w))).
  - rewrite page_becomes_visible_spec. simpl.
    destruct (visibilityListener (this w)) as [[[]]|] eqn:Hv; simpl; try done.
    all: by rewrite Hv.
  - done.
  - done.
Qed.

Lemma run_unsubscribed (evs : list Event) (w : World) :
  unsubscribed w = true -> unsubscribed (run evs w) = true.
Proof.
  revert w. induction evs as [|ev evs IH]; intros w Hw; simpl; [done|].
  by apply IH, step_unsubscribed.
Qed.

Lemma visible_when_unsubscribed (a : Answer) (w : World) :
  unsubscribed w = true ->
  step w (PageVisible a) = on_platform (set_hidden false) w.
Proof.
  unfold unsubscribed, step. simpl. rewrite page_becomes_visible_spec. simpl.
  by destruct (visibilityListener (this w)) as [[[]]|].
Qed.

(** C4, as the code has it: under the native strategy the constructor
    subscribes the visibility listener; [enable()] leaves the subscription
    as it finds it, whether it succeeds or fails; [disable()] removes the
    listeners; while the subscription stands, the page becoming visible
    runs [enable()]. *)
Theorem visibility_registered_by_constructor_only (w : World) (a : Answer) :
  (forall p, wakeLock_in_navigator p = true ->
     visibilityListener (this (new_NoSleepJs p)) = Some (mkVisibilityListener true)) /\
  visibilityListener (this (snd (enable a w))) = visibilityListener (this w) /\
  (wakeLock_in_navigator (platform w) = true ->
     visibilityListener (this (snd (disable w))) =
       (fun _ => mkVisibilityListener false) <$> visibilityListener (this w)) /\
  (listening <$> visibilityListener (this w) = Some true ->
     step w (PageVisible a) = snd (enable a (on_platform (set_hidden false) w))).
Proof.
  split; [|split; [|split]].
  - intros p Hp. unfold new_NoSleepJs. js_unfold. simpl. by rewrite Hp.
  - apply enable_visibilityListener.
  - intros Hn. rewrite disable_visibilityListener, Hn.
    by destruct (visibilityListener (this w)).
  - intros Hl. unfold step. simpl. rewrite page_becomes_visible_spec. simpl.
    by destruct (visibilityListener (this w)) as [[[]]|].
Qed.

Lemma visibility_registered_by_constructor_only_witness :
  let p := fresh_platform true false true "https://example.org/" in
  let w := new_NoSleepJs p in
  wakeLock_in_navigator p = true /\
  visibilityListener (this w) = Some (mkVisibilityListener true) /\
  visibilityListener (this (snd (disable w))) = Some (mkVisibilityListener false) /\
  step w (PageVisible Resolved) = snd (enable Resolved (on_platform (set_hidden false) w)).
Proof.
  intros p w.
  pose proof (visibility_registered_by_constructor_only w Resolved)
    as (Hnew & _ & Hdis & Hvis).
  split; [reflexivity|]. split; [exact (Hnew p eq_refl)|].
  split; [exact (Hdis eq_refl) | exact (Hvis eq_refl)].
Defined.

(** C4, counterexample: after [disable()], a granted [enable()] leaves
    the listener removed; the instance is enabled, and the page becoming
    visible requests no second lock. *)
Lemma enable_does_not_resubscribe :
  let w := run [CallDisable; CallEnable Resolved]
               (new_NoSleepJs (fresh_platform true false false "https://example.org/")) in
  isEnabled w = true /\
  listening <$> visibilityListener (this w) = Some false /\
  length (sentinels (platform w)) = 1 /\
  length (sentinels (platform (step w (PageVisible Resolved)))) = 1.
Proof. vm_compute. repeat split. Qed.

(** C9: under the native strategy the constructor subscribes the listener,
    so on an instance whose [enable()] was never called the page becoming
    visible runs [enable()] (and a granted request leaves it enabled with a
    lock held); once [disable()] has run, the listener stays removed through
    every later history of calls and events, and the page becoming visible
    then only updates the visibility flag. *)
Theorem visibility_callback_lifecycle (p : Platform) (a : Answer) (evs : list Event) :
  wakeLock_in_navigator p = true ->
  let w := new_NoSleepJs p in
  (listening <$> visibilityListener (this w) = Some true /\
   isEnabled w = false /\
   step w (PageVisible a) = snd (enable a (on_platform (set_hidden false) w)) /\
   isEnabled (step w (PageVisible Resolved)) = true /\
   _wakeLock (this (step w (PageVisible Resolved))) = Obj (length (sentinels p))) /\
  (forall w0 : World,
     wakeLock_in_navigator (platform w0) = true ->
     let w' := run evs (snd (disable w0)) in
     unsubscribed w' = true /\
     step w' (PageVisible a) = on_platform (set_hidden false) w').
Proof.
  intros Hp w. split.
  - assert (Hw : w = mkWorld (mkNoSleepJs false Null (Some (mkVisibilityListener true))
                                Undefined None) p).
    { subst w. unfold new_NoSleepJs. js_unfold. simpl. rewrite Hp. by destruct p. }
    rewrite Hw. unfold step, isEnabled. simpl.
    rewrite !page_becomes_visible_spec. simpl.
    rewrite enable_native_resolved by done. done.
  - intros w0 Hn w'.
    assert (Hu : unsubscribed w' = true).
    { apply run_unsubscribed. unfold unsubscribed.
      rewrite disable_visibilityListener, Hn.
      by destruct (visibilityListener (this w0)). }
    split; [done | by apply visible_when_unsubscribed].
Qed.

Lemma visibility_callback_lifecycle_witness :
  let p := fresh_platform true false true "https://example.org/" in
  let w := new_NoSleepJs p in
  let w' := run [CallEnable Resolved; PageHidden; CallEnable Resolved] (snd (disable w)) in
  wakeLock_in_navigator p = true /\
  isEnabled (step w (PageVisible Resolved)) = true /\
  unsubscribed w' = true /\
  step w' (PageVisible Resolved) = on_platform (set_hidden false) w'.
Proof.
  intros p w w'.
  pose proof (visibility_callback_lifecycle p Resolved
                [CallEnable Resolved; PageHidden; CallEnable Resolved] eq_refl)
    as ((_ & _ & _ & Hen & _) & Hlater).
  split; [reflexivity|]. split; [exact Hen|].
  exact (Hlater w eq_refl).
Defined.

(** ** Which strategy a call follows *)

Lemma step_select_strategy (w : World) (ev : Event) :
  is_capability_change ev = false ->
  select_strategy (platform (step w ev)) = select_strategy (platform w).
Proof.
  unfold select_strategy, step. destruct ev as [a| |id|id|a| |n o]; simpl; intros Hev.
  - by destruct (enable_capabilities a w) as [-> ->].
  - by destruct (disable_capabilities w) as [-> ->].
  - rewrite release_sentinel_spec. simpl.
    by destruct (released_platform_capabilities id (platform w)) as (-> & -> & _).
  - by destruct (fire_interval_frame id w) as (_ & _ & _ & _ & -> & ->).
  - rewrite page_becomes_visible_spec. simpl.
    destruct (visibilityListener (this w)) as [[[]]|]; try done.
    destruct (enable_capabilities a (on_platform (set_hidden false) w)) as [H1 H2].
    unfold on_platform in *. simpl in *. by rewrite H1, H2.
  - done.
  - done.
Qed.

Lemma run_select_strategy (evs : list Event) (w : World) :
  capabilities_fixed evs = true ->
  select_strategy (platform (run evs w)) = select_strategy (platform w).
Proof.
  revert w. induction evs as [|ev evs IH]; intros w Hevs; simpl in *; [done|].
  apply andb_true_iff in Hevs as [Hev Hevs].
  rewrite IH by done. apply step_select_strategy. by destruct (is_capability_change ev).
Qed.

Lemma new_NoSleepJs_spec (p : Platform) :
  new_NoSleepJs p =
  mkWorld
    (match select_strategy p with
     | Native => mkNoSleepJs false Null (Some (mkVisibilityListener true)) Undefined None
     | Legacy => mkNoSleepJs false Undefined None Null None
     | Media => mkNoSleepJs false Undefined None Undefined (Some (mkNoSleepElement false true))
     end) p.
Proof.
  unfold new_NoSleepJs, select_strategy. js_unfold. simpl.
  destruct p as [[] [] ? ? ? ? ? ? ?]; done.
Qed.

(** C2, as the code has it: the constructor populates the fields of the
    strategy the capability predicates select at that moment, and every
    [enable()] and [disable()] call asks the predicates again and follows
    the strategy they select at the time of the call, on whatever instance
    it runs: a native call touches only the wake-lock handle and the
    sentinels, an old-iOS call only the timer, a video call only the video
    element.  The methods do not change the answers themselves, so along a
    history without capability change every call follows the strategy of
    the construction. *)
Theorem dispatch_follows_current_capabilities
    (w : World) (a : Answer) (p : Platform) (evs : list Event) :
  let w1 := snd (enable a w) in
  let w2 := snd (disable w) in
  (fields_populated (new_NoSleepJs p) = true /\
   (capabilities_fixed evs = true ->
    select_strategy (platform (run evs (new_NoSleepJs p))) = select_strategy p)) /\
  match select_strategy (platform w) with
  | Native =>
      (intervals (platform w1) = intervals (platform w) /\
       noSleepTimer (this w1) = noSleepTimer (this w) /\
       noSleepElement (this w1) = noSleepElement (this w) /\
       (a = Resolved ->
        sentinels (platform w1) =
          sentinels (platform w) ++ [mkSentinel false [OnWakeLockRelease]])) /\
      (_wakeLock (this w2) = Null /\
       intervals (platform w2) = intervals (platform w) /\
       noSleepTimer (this w2) = noSleepTimer (this w) /\
       noSleepElement (this w2) = noSleepElement (this w))
  | Legacy =>
      (sentinels (platform w1) = sentinels (platform w) /\
       _wakeLock (this w1) = _wakeLock (this w) /\
       noSleepElement (this w1) = noSleepElement (this w) /\
       exists id, noSleepTimer (this w1) = Obj id /\
                  intervals (platform w1) !! id = Some (mkInterval OldIOSTick 15000 false)) /\
      (sentinels (platform w2) = sentinels (platform w) /\
       _wakeLock (this w2) = _wakeLock (this w) /\
       noSleepElement (this w2) = noSleepElement (this w) /\
       truthy (noSleepTimer (this w2)) = false)
  | Media =>
      (sentinels (platform w1) = sentinels (platform w) /\
       intervals (platform w1) = intervals (platform w) /\
       _wakeLock (this w1) = _wakeLock (this w) /\
       noSleepTimer (this w1) = noSleepTimer (this w) /\
       (a = Resolved ->
        playing <$> noSleepElement (this w1) = (fun _ => true) <$> noSleepElement (this w))) /\
      (sentinels (platform w2) = sentinels (platform w) /\
       intervals (platform w2) = intervals (platform w) /\
       _wakeLock (this w2) = _wakeLock (this w) /\
       noSleepTimer (this w2) = noSleepTimer (this w) /\
       playing <$> noSleepElement (this w2) = (fun _ => false) <$> noSleepElement (this w))
  end.
Proof.
  intros w1 w2. subst w1 w2. split.
  - split.
    + rewrite new_NoSleepJs_spec. unfold fields_populated. simpl.
      by destruct (select_strategy p).
    + intros Hevs. rewrite run_select_strategy by done.
      by rewrite new_NoSleepJs_spec.
  - unfold select_strategy.
    destruct (wakeLock_in_navigator (platform w)) eqn:Hn;
      [|destruct (old_ios (platform w)) eqn:Ho].
    + rewrite disable_native by done. simpl. split.
      * destruct a; [rewrite enable_native_resolved by done
                    |rewrite enable_native_rejected by done]; done.
      * do 1 (split; [done|]). split; [|done].
        destruct (_wakeLock (this w)); try done.
        apply released_platform_capabilities.
    + rewrite enable_legacy by done. simpl.
      rewrite disable_legacy by done. split.
      * destruct (noSleepTimer (this w)); simpl; do 3 (split; [done|]);
          eexists; (split; [done|]); by apply list_lookup_middle.
      * by destruct (noSleepTimer (this w)) eqn:Ht; simpl; rewrite ?Ht.
    + rewrite enable_media, disable_media by done.
      destruct (noSleepElement (this w)) as [el|] eqn:Hel; simpl.
      * destruct a; simpl; rewrite ?Hel; done.
      * by rewrite Hel.
Qed.

Lemma dispatch_follows_current_capabilities_witness :
  let p := fresh_platform false false false "https://example.org/" in
  let evs := [CallEnable Resolved; PageHidden; CallDisable] in
  capabilities_fixed evs = true /\
  select_strategy (platform (run evs (new_NoSleepJs p))) = Media.
Proof.
  intros p evs. split; [reflexivity|].
  exact (proj2 (proj1 (dispatch_follows_current_capabilities
                         (new_NoSleepJs p) Resolved p evs)) eq_refl).
Defined.

(** C2, counterexample: an instance constructed where neither capability
    is present gets the video element; the environment then reports the
    wake-lock capability, and the next [enable()] requests a wake lock and
    leaves the video paused, which is not what the video strategy's
    [_enableVideoPlayback] does on the same instance. *)
Lemma enable_reevaluates_capabilities :
  let p := fresh_platform false false false "https://example.org/" in
  let w := step (new_NoSleepJs p) (CapabilitiesChange true false) in
  let w1 := snd (enable Resolved w) in
  select_strategy p = Media /\
  noSleepElement (this w) = Some (mkNoSleepElement false true) /\
  _wakeLock (this w1) = Obj 0 /\
  sentinels (platform w1) = [mkSentinel false [OnWakeLockRelease]] /\
  noSleepElement (this w1) = Some (mkNoSleepElement false true) /\
  noSleepElement (this (snd (_enableVideoPlayback Resolved w))) =
    Some (mkNoSleepElement true true) /\
  enable Resolved w <> _enableVideoPlayback Resolved w.
Proof. vm_compute. repeat split. discriminate. Qed.

(** ** What holds along every history with fixed capabilities *)

Lemma select_strategy_cases (p : Platform) (s : Strategy) :
  select_strategy p = s ->
  match s with
  | Native => wakeLock_in_navigator p = true
  | Legacy => wakeLock_in_navigator p = false /\ old_ios p = true
  | Media => wakeLock_in_navigator p = false /\ old_ios p = false
  end.
Proof.
  unfold select_strategy. intros <-.
  by destruct (wakeLock_in_navigator p), (old_ios p).
Qed.

Lemma invariant_new (native old hidden : bool) (href : string) :
  let p := fresh_platform native old hidden href in
  invariant (select_strategy p) (new_NoSleepJs p).
Proof.
  intros p. rewrite new_NoSleepJs_spec. split; [done|].
  subst p. destruct native, old; simpl; unfold inv_native, inv_legacy, inv_media; simpl;
    try done; eauto 10.
Qed.

Lemma invariant_set_hidden (s : Strategy) (h : bool) (w : World) :
  invariant s w -> invariant s (on_platform (set_hidden h) w).
Proof. by destruct s. Qed.

Lemma invariant_enable (s : Strategy) (a : Answer) (w : World) :
  invariant s w -> invariant s (snd (enable a w)).
Proof.
  intros [Hs Hinv]. split.
  { unfold select_strategy. by destruct (enable_capabilities a w) as [-> ->]. }
  pose proof (select_strategy_cases _ _ Hs) as Hc. destruct s.
  - destruct Hinv as (Hi & He & Hen).
    destruct a; [rewrite enable_native_resolved by done
                |rewrite enable_native_rejected by done];
      (split; [done|]); (split; [done|]); simpl; [|done].
    intros _. eexists. split; [done|]. rewrite length_app. simpl. lia.
  - destruct Hc as [Hn Ho]. destruct Hinv as (Hss & He & Ht).
    rewrite enable_legacy by done. simpl.
    rewrite disable_legacy by done.
    unfold inv_legacy, active_intervals in *. simpl.
    destruct (noSleepTimer (this w)) as [| |id]; simpl; [done| |].
    + do 2 (split; [done|]). split; [done|]. split.
      * eexists. split; [by apply list_lookup_middle | done].
      * rewrite filter_app, length_app. simpl. lia.
    + do 2 (split; [done|]). split; [done|].
      destruct Ht as (_ & (iv & Hiv & Hcl) & Hcount). split.
      * eexists. split; [by apply list_lookup_middle | done].
      * rewrite filter_app, length_app. simpl.
        pose proof (filter_alter_hit (fun i => cleared i = false) mark_cleared
                      mark_cleared_inactive _ _ _ Hiv Hcl). lia.
  - destruct Hc as [Hn Ho]. destruct Hinv as (Hss & Hi & e & He & Hp).
    rewrite enable_media, He by done.
    destruct a; simpl; (split; [done|]); (split; [done|]); simpl; eauto.
    eexists. split; [done|]. done.
Qed.

Lemma invariant_disable (s : Strategy) (w : World) :
  invariant s w -> invariant s (snd (disable w)).
Proof.
  intros [Hs Hinv]. split.
  { unfold select_strategy. by destruct (disable_capabilities w) as [-> ->]. }
  pose proof (select_strategy_cases _ _ Hs) as Hc. destruct s.
  - destruct Hinv as (Hi & He & Hen).
    rewrite disable_native by done.
    split; [|done]. simpl. destruct (_wakeLock (this w)); try done.
    by rewrite (proj1 (proj2 (proj2 (released_platform_capabilities _ _)))).
  - destruct Hc as [Hn Ho]. destruct Hinv as (Hss & He & Ht).
    rewrite disable_legacy by done.
    unfold inv_legacy, active_intervals in *.
    destruct (noSleepTimer (this w)) as [| |id] eqn:Hid; simpl; [done| |].
    + rewrite Hid. by destruct Ht.
    + do 2 (split; [done|]). split; [done|].
      destruct Ht as (_ & (iv & Hiv & Hcl) & Hcount).
      pose proof (filter_alter_hit (fun i => cleared i = false) mark_cleared
                    mark_cleared_inactive _ _ _ Hiv Hcl). lia.
  - destruct Hc as [Hn Ho]. destruct Hinv as (Hss & Hi & e & He & Hp).
    rewrite disable_media, He by done.
    do 2 (split; [done|]). eexists. split; [done|]. done.
Qed.

Lemma invariant_step (s : Strategy) (w : World) (ev : Event) :
  is_capability_change ev = false ->
  invariant s w -> invariant s (step w ev).
Proof.
  unfold step. destruct ev as [a| |id|id|a| |n o]; simpl; intros Hev Hinv.
  - by apply invariant_enable.
  - by apply invariant_disable.
  - rewrite release_sentinel_spec. cbn [snd].
    destruct Hinv as [Hs Hinv]. split.
    { unfold select_strategy. cbn [on_platform platform].
      by destruct (released_platform_capabilities id (platform w)) as (-> & -> & _). }
    destruct s.
    + destruct Hinv as (Hi & He & Hen).
      unfold inv_native. cbn [on_platform platform this].
      split; [|split; [done|]].
      * by rewrite (proj1 (proj2 (proj2 (released_platform_capabilities _ _)))).
      * by rewrite released_platform_length.
    + unfold on_platform.
      assert (released_platform id (platform w) = platform w) as ->
        by (unfold released_platform; by rewrite (proj1 Hinv)).
      by destruct w.
    + unfold on_platform.
      assert (released_platform id (platform w) = platform w) as ->
        by (unfold released_platform; by rewrite (proj1 Hinv)).
      by destruct w.
  - destruct (fire_interval_frame id w) as (_ & Hthis & Hss & Hi & Hn & Ho).
    destruct Hinv as [Hs Hinv]. split.
    { unfold select_strategy in *. by rewrite Hn, Ho. }
    destruct s; unfold inv_native, inv_legacy, inv_media, active_intervals in *;
      by rewrite Hthis, Hss, Hi.
  - rewrite page_becomes_visible_spec. simpl.
    pose proof (invariant_set_hidden s false w Hinv) as Hvis.
    destruct (visibilityListener (this w)) as [[[]]|]; try done.
    by apply invariant_enable.
  - by apply invariant_set_hidden.
  - done.
Qed.

Lemma invariant_run (s : Strategy) (evs : list Event) (w : World) :
  capabilities_fixed evs = true ->
  invariant s w -> invariant s (run evs w).
Proof.
  revert w. induction evs as [|ev evs IH]; intros w Hevs Hinv; simpl in *; [done|].
  apply andb_true_iff in Hevs as [Hev Hevs].
  apply IH; [done|]. apply invariant_step; [|done].
  by destruct (is_capability_change ev).
Qed.

(** C1, as the code has it: take an instance constructed in a browser that
    holds nothing, and any history of [enable()] and [disable()] calls,
    platform releases, timer ticks and visibility changes during which the
    capability answers stay as they were.  Only resources of the chosen
    strategy are ever active.  Old-iOS strategy: at most one timer is
    active, and [enabled] is true exactly when one is.  Video strategy: at
    most one resource is active, and [enabled] true implies the video is
    playing.  Native strategy: [enabled] true implies a sentinel the
    platform handed out is stored in the handle. *)
Theorem resources_along_histories
    (native old hidden : bool) (href : string) (evs : list Event) :
  capabilities_fixed evs = true ->
  let p := fresh_platform native old hidden href in
  let w := run evs (new_NoSleepJs p) in
  match select_strategy p with
  | Native =>
      active_intervals w = 0 /\ media_playing w = 0 /\
      (isEnabled w = true ->
       exists id, _wakeLock (this w) = Obj id /\ is_Some (sentinels (platform w) !! id))
  | Legacy =>
      active_sentinels w = 0 /\ media_playing w = 0 /\
      active_resources w <= 1 /\
      (isEnabled w = true <-> active_resources w = 1) /\
      (isEnabled w = true <-> truthy (noSleepTimer (this w)) = true)
  | Media =>
      active_sentinels w = 0 /\ active_intervals w = 0 /\
      active_resources w <= 1 /\
      (isEnabled w = true -> active_resources w = 1)
  end.
Proof.
  intros Hevs p w.
  pose proof (invariant_run _ evs _ Hevs (invariant_new native old hidden href)) as [_ Hinv].
  fold p in Hinv. fold w in Hinv.
  unfold inv_native, inv_legacy, inv_media in Hinv.
  unfold isEnabled, active_resources, active_sentinels, active_intervals, media_playing in *.
  destruct (select_strategy p).
  - destruct Hinv as (-> & -> & Hen). do 2 (split; [done|]).
    intros He. destruct (Hen He) as (id & Hid & Hlt).
    exists id. split; [done|]. by apply lookup_lt_is_Some.
  - destruct Hinv as (-> & -> & Ht). simpl.
    destruct (noSleepTimer (this w)) as [| |id]; [done| |].
    + destruct Ht as [-> ->]. simpl. repeat split; try done; lia.
    + destruct Ht as (-> & _ & ->). simpl. repeat split; try done; lia.
  - destruct Hinv as (-> & -> & e & -> & Hp). simpl.
    do 2 (split; [done|]). split; [destruct (playing e); lia|].
    intros He. by rewrite (Hp He).
Qed.

Lemma resources_along_histories_witness :
  let evs := [CallEnable Resolved; IntervalFires 0; CallEnable Resolved; PageHidden] in
  let w := run evs (new_NoSleepJs (fresh_platform false true false "https://example.org/#a")) in
  capabilities_fixed evs = true /\
  active_resources w <= 1 /\
  (isEnabled w = true <-> active_resources w = 1).
Proof.
  intros evs w.
  pose proof (resources_along_histories false true false "https://example.org/#a" evs eq_refl)
    as (_ & _ & Hle & Hiff & _).
  split; [reflexivity|]. split; [exact Hle | exact Hiff].
Defined.

(** C1, counterexample: under the native strategy two granted [enable()]
    calls leave two sentinels active at once; and after one granted
    [enable()] and a platform release, [enabled] is true while nothing is
    active. *)
Lemma native_resources_not_tracked :
  let w0 := new_NoSleepJs (fresh_platform true false false "https://example.org/") in
  let w2 := run [CallEnable Resolved; CallEnable Resolved] w0 in
  let wr := run [CallEnable Resolved; PlatformRelease 0] w0 in
  active_resources w2 = 2 /\
  ~ active_resources w2 <= 1 /\
  isEnabled wr = true /\
  active_resources wr = 0.
Proof. vm_compute. repeat split. lia. Qed.

(** * Further properties of the class *)

(** ** The constructor *)

(** X1: the constructor leaves the browser as it found it, starts with
    [enabled] false, and populates the fields of exactly one strategy: the
    null handle and a subscribed listener, or the null timer, or a paused
    video element with its metadata listener; the fields of the other two
    strategies stay undefined. *)
Theorem constructor_selects_one_strategy (p : Platform) :
  let w := new_NoSleepJs p in
  platform w = p /\
  isEnabled w = false /\
  fields_populated w = true /\
  match select_strategy p with
  | Native =>
      _wakeLock (this w) = Null /\
      visibilityListener (this w) = Some (mkVisibilityListener true) /\
      noSleepTimer (this w) = Undefined /\ noSleepElement (this w) = None
  | Legacy =>
      noSleepTimer (this w) = Null /\
      _wakeLock (this w) = Undefined /\ visibilityListener (this w) = None /\
      noSleepElement (this w) = None
  | Media =>
      noSleepElement (this w) = Some (mkNoSleepElement false true) /\
      _wakeLock (this w) = Undefined /\ visibilityListener (this w) = None /\
      noSleepTimer (this w) = Undefined
  end.
Proof.
  intros w. subst w. rewrite new_NoSleepJs_spec.
  unfold isEnabled, fields_populated. simpl.
  by destruct (select_strategy p).
Qed.

(** X9: [disable()] on an instance that was never enabled returns normally
    and leaves the browser untouched (no console line, no timer cleared, no
    sentinel released); under the old-iOS and video strategies the instance
    is unchanged as well, under the native strategy the only change is that
    the visibility listener is removed. *)
Theorem disable_on_new_instance (p : Platform) :
  let w := new_NoSleepJs p in
  fst (disable w) = Normal tt /\
  platform (snd (disable w)) = p /\
  match select_strategy p with
  | Native =>
      this (snd (disable w)) =
        set_visibilityListener_field (Some (mkVisibilityListener false)) (this w)
  | _ => snd (disable w) = w
  end.
Proof.
  intros w. subst w. rewrite new_NoSleepJs_spec.
  pose proof (select_strategy_cases p _ eq_refl) as Hc.
  destruct (select_strategy p).
  - by rewrite disable_native.
  - destruct Hc as [Hn Ho]. by rewrite disable_legacy.
  - destruct Hc as [Hn Ho]. by rewrite disable_media.
Qed.

(** ** What [enable] reports *)

(** X2: on any instance and for any platform answer, [isEnabled] is true
    after [enable()] exactly when [enable()] returned normally. *)
Theorem enable_succeeds_iff_enabled (w : World) (a : Answer) :
  isEnabled (snd (enable a w)) = true <-> fst (enable a w) = Normal tt.
Proof.
  unfold isEnabled.
  destruct (wakeLock_in_navigator (platform w)) eqn:Hn;
    [|destruct (old_ios (platform w)) eqn:Ho].
  - destruct a; [rewrite enable_native_resolved by done
                |rewrite enable_native_rejected by done]; done.
  - by rewrite enable_legacy.
  - rewrite enable_media by done. by destruct (noSleepElement (this w)), a.
Qed.

(** X3: under the native strategy a rejected [enable()] that follows a
    granted one sets [enabled] to false and writes the error's name and
    message to the console, but keeps the handle of the earlier sentinel
    and does not release it: a lock stays active while [isEnabled] answers
    false, until [disable()] releases it. *)
Theorem rejected_enable_keeps_earlier_lock (w : World) (e : JsError) :
  wakeLock_in_navigator (platform w) = true ->
  let n := length (sentinels (platform w)) in
  let w1 := snd (enable Resolved w) in
  let w2 := snd (enable (Rejected e) w1) in
  let w3 := snd (disable w2) in
  isEnabled w2 = false /\
  _wakeLock (this w2) = Obj n /\
  sentinels (platform w2) = sentinels (platform w1) /\
  sentinels (platform w2) !! n = Some (mkSentinel false [OnWakeLockRelease]) /\
  console (platform w2) =
    console (platform w1) ++ [Error (err_name e ++ ", " ++ err_message e)] /\
  active_sentinels w2 = S (active_sentinels w) /\
  released <$> sentinels (platform w3) !! n = Some true /\
  active_sentinels w3 = active_sentinels w.
Proof.
  intros Hn n w1 w2 w3. subst w1 w2 w3.
  rewrite (enable_native_resolved w) by done.
  rewrite enable_native_rejected by done.
  rewrite disable_native by done.
  unfold isEnabled, active_sentinels. simpl. fold n.
  set (s := mkSentinel false [OnWakeLockRelease]).
  assert (Hs : (sentinels (platform w) ++ [s]) !! n = Some s)
    by (apply list_lookup_middle; done).
  do 5 (split; [done|]).
  split; [rewrite filter_app, length_app; simpl; lia|].
  split.
  - rewrite released_platform_lookup. simpl. rewrite Hs. simpl. by rewrite decide_True.
  - unfold released_platform. simpl. rewrite Hs. simpl.
    replace n with (n + 0) by lia. subst n. rewrite alter_app_r. simpl.
    rewrite filter_app, length_app. simpl. lia.
Qed.

Lemma rejected_enable_keeps_earlier_lock_witness :
  let w := new_NoSleepJs (fresh_platform true false false "https://example.org/") in
  let e := mkError "NotAllowedError" "Permission denied" in
  let w2 := snd (enable (Rejected e) (snd (enable Resolved w))) in
  wakeLock_in_navigator (platform w) = true /\
  isEnabled w2 = false /\
  _wakeLock (this w2) = Obj 0 /\
  active_sentinels w2 = 1.
Proof.
  intros w e w2.
  pose proof (rejected_enable_keeps_earlier_lock w e eq_refl)
    as (Hen & Hh & _ & _ & _ & Hact & _).
  split; [reflexivity|]. split; [exact Hen|]. split; [exact Hh | exact Hact].
Defined.

(** ** The old-iOS timer across calls *)

Lemma enable_legacy_over_timer (w : World) (a : Answer) (id : nat) :
  select_strategy (platform w) = Legacy ->
  noSleepTimer (this w) = Obj id ->
  noSleepTimer (this (snd (enable a w))) = Obj (length (intervals (platform w))) /\
  intervals (platform (snd (enable a w))) =
    alter mark_cleared id (intervals (platform w)) ++ [mkInterval OldIOSTick 15000 false] /\
  isEnabled (snd (enable a w)) = true.
Proof.
  intros Hsel Hid. destruct (select_strategy_cases _ _ Hsel) as [Hn Ho].
  rewrite enable_legacy by done. cbn [snd]. rewrite disable_legacy, Hid by done.
  unfold isEnabled. simpl. by rewrite length_alter.
Qed.

Lemma enable_legacy_new_timer (w : World) (a : Answer) :
  select_strategy (platform w) = Legacy ->
  exists l,
    noSleepTimer (this (snd (enable a w))) = Obj (length l) /\
    intervals (platform (snd (enable a w))) = l ++ [mkInterval OldIOSTick 15000 false].
Proof.
  intros Hsel. destruct (select_strategy_cases _ _ Hsel) as [Hn Ho].
  rewrite enable_legacy by done. cbn [snd]. eexists. split; simpl; done.
Qed.

(** X4: under the old-iOS strategy a second [enable()] clears the timer the
    first one started before it starts its own, so repeated calls do not
    accumulate timers: the stored handle moves to the new timer and as many
    timers are active after the second call as after the first. *)
Theorem legacy_enable_twice_one_timer (w : World) (a b : Answer) :
  select_strategy (platform w) = Legacy ->
  let w1 := snd (enable a w) in
  let w2 := snd (enable b w1) in
  exists id,
    noSleepTimer (this w1) = Obj id /\
    noSleepTimer (this w2) = Obj (S id) /\
    cleared <$> intervals (platform w1) !! id = Some false /\
    cleared <$> intervals (platform w2) !! id = Some true /\
    cleared <$> intervals (platform w2) !! S id = Some false /\
    active_intervals w2 = active_intervals w1 /\
    isEnabled w2 = true.
Proof.
  intros Hsel w1 w2.
  destruct (enable_legacy_new_timer w a Hsel) as (l & Ht1 & Hl1). fold w1 in Ht1, Hl1.
  assert (Hsel1 : select_strategy (platform w1) = Legacy).
  { subst w1. unfold select_strategy in *.
    by destruct (enable_capabilities a w) as [-> ->]. }
  destruct (enable_legacy_over_timer w1 b _ Hsel1 Ht1) as (Ht2 & Hl2 & Hen2).
  fold w2 in Ht2, Hl2, Hen2.
  set (i := mkInterval OldIOSTick 15000 false) in *.
  assert (Ha : alter mark_cleared (length l) (l ++ [i]) = l ++ [mark_cleared i]).
  { replace (length l) with (length l + 0) at 1 by lia. by rewrite alter_app_r. }
  exists (length l). unfold active_intervals.
  rewrite Ht2, Hl2, Hl1, Ha, !length_app. simpl.
  replace (length l + 1) with (S (length l)) by lia.
  split; [done|]. split; [done|].
  split; [by rewrite list_lookup_middle|].
  split.
  { rewrite lookup_app_l by (rewrite length_app; simpl; lia).
    by rewrite list_lookup_middle. }
  split.
  { rewrite (list_lookup_middle (l ++ [mark_cleared i]) [] i (S (length l))); [done|].
    rewrite length_app. simpl. lia. }
  split; [|done].
  rewrite !filter_app, !length_app. simpl. lia.
Qed.

Lemma legacy_enable_twice_one_timer_witness :
  let w := new_NoSleepJs (fresh_platform false true false "https://example.org/") in
  let w2 := snd (enable Resolved (snd (enable Resolved w))) in
  select_strategy (platform w) = Legacy /\
  exists id, noSleepTimer (this w2) = Obj (S id) /\
             active_intervals w2 = active_intervals (snd (enable Resolved w)).
Proof.
  intros w w2. split; [reflexivity|].
  destruct (legacy_enable_twice_one_timer w Resolved Resolved eq_refl)
    as (id & _ & H2 & _ & _ & _ & Hact & _).
  exists id. split; [exact H2 | exact Hact].
Defined.

(** X6: under the old-iOS strategy, once [disable()] has run, the timer
    that was stored in the handle no longer does anything when its period
    elapses: no navigation, no scheduled [window.stop], whether the page is
    visible or hidden. *)
Theorem cleared_timer_tick_does_nothing (w : World) (id : nat) :
  select_strategy (platform w) = Legacy ->
  noSleepTimer (this w) = Obj id ->
  step (snd (disable w)) (IntervalFires id) = snd (disable w).
Proof.
  intros Hsel Hid. destruct (select_strategy_cases _ _ Hsel) as [Hn Ho].
  rewrite disable_legacy, Hid by done. unfold step, handle, fire_interval.
  js_unfold. simpl. rewrite list_lookup_alter, decide_True by done.
  by destruct (intervals (platform w) !! id).
Qed.

Lemma cleared_timer_tick_does_nothing_witness :
  let w := snd (enable Resolved
                  (new_NoSleepJs (fresh_platform false true false "https://example.org/#x"))) in
  select_strategy (platform w) = Legacy /\
  noSleepTimer (this w) = Obj 0 /\
  step (snd (disable w)) (IntervalFires 0) = snd (disable w).
Proof.
  intros w. split; [reflexivity|]. split; [reflexivity|].
  exact (cleared_timer_tick_does_nothing w 0 eq_refl eq_refl).
Defined.

Lemma split_hash_0_idem (u : string) :
  split_hash_0 (split_hash_0 u) = split_hash_0 u.
Proof. apply split_hash_0_no_fragment, split_hash_0_no_hash. Qed.

(** X5: when an active timer fires twice while the page is visible, the
    second tick navigates to the same URL as the first: the location is
    already cut before its first '#', and cutting it again changes nothing.
    Each tick records one navigation and schedules one [window.stop]; the
    instance and the timers are untouched. *)
Theorem visible_ticks_repeat_same_url (w : World) (id : nat) (iv : Interval) :
  intervals (platform w) !! id = Some iv ->
  cleared iv = false ->
  document_hidden (platform w) = false ->
  let u := split_hash_0 (location_href (platform w)) in
  let w2 := step (step w (IntervalFires id)) (IntervalFires id) in
  location_href (platform w2) = u /\
  navigations (platform w2) = navigations (platform w) ++ [u; u] /\
  timeouts (platform w2) = timeouts (platform w) ++ [(WindowStop, 0%N); (WindowStop, 0%N)] /\
  this w2 = this w /\
  intervals (platform w2) = intervals (platform w) /\
  sentinels (platform w2) = sentinels (platform w).
Proof.
  intros Hi Hc Hh u w2. subst w2. unfold step. simpl.
  set (f := fun p => add_timeout (WindowStop, 0%N)
                       (set_href (split_hash_0 (location_href p)) p)).
  assert (H1 : snd (fire_interval id w) = on_platform f w)
    by (by rewrite (fire_interval_spec w id iv Hi Hc), Hh).
  rewrite H1.
  assert (H2 : snd (fire_interval id (on_platform f w)) = on_platform f (on_platform f w)).
  { rewrite (fire_interval_spec _ id iv) by done. simpl. by rewrite Hh. }
  rewrite H2. simpl. rewrite split_hash_0_idem, <- !app_assoc. done.
Qed.

Lemma visible_ticks_repeat_same_url_witness :
  let w := snd (enable Resolved
                  (new_NoSleepJs (fresh_platform false true false "https://example.org/a#b#c"))) in
  let w2 := step (step w (IntervalFires 0)) (IntervalFires 0) in
  document_hidden (platform w) = false /\
  location_href (platform w2) = "https://example.org/a" /\
  navigations (platform w2) = ["https://example.org/a"; "https://example.org/a"].
Proof.
  intros w w2.
  destruct (visible_ticks_repeat_same_url w 0 _ eq_refl eq_refl eq_refl)
    as (Hhref & Hnav & _).
  split; [reflexivity|]. split; [exact Hhref | exact Hnav].
Defined.

(** ** An instance whose strategy fields are missing *)

(** X7: when neither capability is present but the instance has no video
    element (it was constructed while a capability was present),
    [disable()] throws a TypeError at [this.noSleepElement.pause()] and
    never reaches the assignment of [enabled]: the whole state, [enabled]
    included, is as before.  [enable()] throws a TypeError as well, whatever
    the platform would answer; its handler sets [enabled] to false and
    writes one console error. *)
Theorem video_branch_without_element (w : World) (a : Answer) :
  select_strategy (platform w) = Media ->
  noSleepElement (this w) = None ->
  (exists e, disable w = (Throw e, w) /\ err_name e = "TypeError") /\
  (exists e, fst (enable a w) = Throw e /\ err_name e = "TypeError" /\
             isEnabled (snd (enable a w)) = false /\
             this (snd (enable a w)) = set_enabled_field false (this w) /\
             console (platform (snd (enable a w))) =
               console (platform w) ++ [ErrorWith "Failed to start video playback:" e]).
Proof.
  intros Hsel Hel. destruct (select_strategy_cases _ _ Hsel) as [Hn Ho].
  rewrite disable_media, enable_media, Hel by done. split.
  - by eexists.
  - eexists. by destruct a.
Qed.

Lemma video_branch_without_element_witness :
  let w0 := new_NoSleepJs (fresh_platform true false false "https://example.org/") in
  let w := run [CallEnable Resolved; CapabilitiesChange false false] w0 in
  select_strategy (platform w) = Media /\
  noSleepElement (this w) = None /\
  isEnabled w = true /\
  (exists e, disable w = (Throw e, w) /\ err_name e = "TypeError").
Proof.
  intros w0 w. split; [reflexivity|]. split; [reflexivity|]. split; [reflexivity|].
  exact (proj1 (video_branch_without_element w Resolved eq_refl eq_refl)).
Defined.

(** ** What the methods leave alone *)

Lemma released_platform_page (id : nat) (p : Platform) :
  location_href (released_platform id p) = location_href p /\
  navigations (released_platform id p) = navigations p /\
  timeouts (released_platform id p) = timeouts p /\
  document_hidden (released_platform id p) = document_hidden p.
Proof.
  unfold released_platform.
  destruct (sentinels p !! id) as [s|]; [destruct (released s)|]; done.
Qed.

Lemma disable_page (w : World) :
  location_href (platform (snd (disable w))) = location_href (platform w) /\
  navigations (platform (snd (disable w))) = navigations (platform w) /\
  timeouts (platform (snd (disable w))) = timeouts (platform w) /\
  document_hidden (platform (snd (disable w))) = document_hidden (platform w).
Proof.
  destruct (wakeLock_in_navigator (platform w)) eqn:Hn;
    [|destruct (old_ios (platform w)) eqn:Ho].
  - rewrite disable_native by done. simpl.
    destruct (_wakeLock (this w)); try done. apply released_platform_page.
  - rewrite disable_legacy by done. by destruct (noSleepTimer (this w)).
  - rewrite disable_media by done. by destruct (noSleepElement (this w)).
Qed.

(** X8: neither [enable()] nor [disable()] ever navigates, schedules a
    timeout, or changes the location or the visibility of the page, on any
    instance, under any strategy and whether the call succeeds or throws;
    only a firing timer does that. *)
Theorem methods_leave_page_alone (w : World) (a : Answer) :
  (location_href (platform (snd (enable a w))) = location_href (platform w) /\
   navigations (platform (snd (enable a w))) = navigations (platform w) /\
   timeouts (platform (snd (enable a w))) = timeouts (platform w) /\
   document_hidden (platform (snd (enable a w))) = document_hidden (platform w)) /\
  (location_href (platform (snd (disable w))) = location_href (platform w) /\
   navigations (platform (snd (disable w))) = navigations (platform w) /\
   timeouts (platform (snd (disable w))) = timeouts (platform w) /\
   document_hidden (platform (snd (disable w))) = document_hidden (platform w)).
Proof.
  split; [|apply disable_page].
  destruct (wakeLock_in_navigator (platform w)) eqn:Hn;
    [|destruct (old_ios (platform w)) eqn:Ho].
  - destruct a; [rewrite enable_native_resolved by done
                |rewrite enable_native_rejected by done]; done.
  - rewrite enable_legacy by done. simpl. apply disable_page.
  - rewrite enable_media by done. by destruct (noSleepElement (this w)), a.
Qed.

(** ** Instances reached with fixed capabilities *)

Lemma enable_fields_populated (a : Answer) (w : World) :
  fields_populated w = true -> fields_populated (snd (enable a w)) = true.
Proof.
  unfold fields_populated, select_strategy.
  destruct (enable_capabilities a w) as [-> ->].
  destruct (wakeLock_in_navigator (platform w)) eqn:Hn;
    [|destruct (old_ios (platform w)) eqn:Ho].
  - intros [Hw Hv]%andb_true_iff.
    destruct a; [rewrite enable_native_resolved by done
                |rewrite enable_native_rejected by done]; simpl; [done|].
    by rewrite Hw, Hv.
  - intros _. by rewrite enable_legacy.
  - intros [el Hel]%bool_decide_eq_true.
    rewrite enable_media, Hel by done. destruct a; simpl; rewrite ?Hel; done.
Qed.

Lemma disable_fields_populated (w : World) :
  fields_populated w = true -> fields_populated (snd (disable w)) = true.
Proof.
  unfold fields_populated, select_strategy.
  destruct (disable_capabilities w) as [-> ->].
  destruct (wakeLock_in_navigator (platform w)) eqn:Hn;
    [|destruct (old_ios (platform w)) eqn:Ho].
  - intros [Hw Hv]%andb_true_iff. rewrite disable_native by done. simpl.
    by apply bool_decide_eq_true in Hv as [v ->].
  - intros Hf. rewrite disable_legacy by done.
    destruct (noSleepTimer (this w)) eqn:Ht; simpl; rewrite ?Ht; done.
  - intros [el Hel]%bool_decide_eq_true. by rewrite disable_media, Hel.
Qed.

Lemma step_fields_populated (w : World) (ev : Event) :
  is_capability_change ev = false ->
  fields_populated w = true -> fields_populated (step w ev) = true.
Proof.
  unfold step. destruct ev as [a| |id|id|a| |n o]; simpl; intros Hev Hf; try done.
  - by apply enable_fields_populated.
  - by apply disable_fields_populated.
  - rewrite release_sentinel_spec. unfold fields_populated, select_strategy in *. simpl.
    by destruct (released_platform_capabilities id (platform w)) as (-> & -> & _).
  - destruct (fire_interval_frame id w) as (_ & Hthis & _ & _ & Hn & Ho).
    unfold fields_populated, select_strategy in *. by rewrite Hthis, Hn, Ho.
  - rewrite page_becomes_visible_spec. simpl.
    destruct (visibilityListener (this w)) as [[[]]|]; try done.
    by apply enable_fields_populated.
Qed.

(** X10: an instance never loses the fields of its strategy: starting from
    any constructed instance, after any history of calls, releases, timer
    ticks and visibility changes that leaves the capability answers alone,
    the fields of the strategy in force are populated; so [disable()]
    returns normally in every such state and [enable()] throws only the
    platform's own rejection. *)
Theorem histories_keep_fields_populated (p : Platform) (evs : list Event) (a : Answer) :
  capabilities_fixed evs = true ->
  let w := run evs (new_NoSleepJs p) in
  fields_populated w = true /\
  select_strategy (platform w) = select_strategy p /\
  fst (disable w) = Normal tt /\
  (forall e, fst (enable a w) = Throw e -> a = Rejected e).
Proof.
  intros Hevs w.
  assert (Hf : fields_populated w = true).
  { assert (Hnew : fields_populated (new_NoSleepJs p) = true).
    { rewrite new_NoSleepJs_spec. unfold fields_populated. simpl.
      by destruct (select_strategy p). }
    subst w. revert Hnew. generalize (new_NoSleepJs p).
    induction evs as [|ev evs IH]; intros w0 Hw0; simpl in *; [done|].
    apply andb_true_iff in Hevs as [Hev Hevs].
    apply IH; [done|]. apply step_fields_populated; [|done].
    by destruct (is_capability_change ev). }
  split; [done|].
  split.
  { subst w. rewrite run_select_strategy by done. by rewrite new_NoSleepJs_spec. }
  unfold fields_populated in Hf.
  pose proof (select_strategy_cases (platform w) _ eq_refl) as Hc.
  destruct (select_strategy (platform w)).
  - rewrite disable_native by done. split; [done|]. intros e.
    destruct a; [rewrite enable_native_resolved by done
                |rewrite enable_native_rejected by done]; simpl; [done|].
    by intros [= ->].
  - destruct Hc as [Hn Ho]. rewrite disable_legacy, enable_legacy by done. done.
  - destruct Hc as [Hn Ho]. apply bool_decide_eq_true in Hf as [el Hel].
    rewrite disable_media, enable_media, Hel by done. split; [done|]. intros e.
    destruct a; simpl; [done|]. by intros [= ->].
Qed.

Lemma histories_keep_fields_populated_witness :
  let p := fresh_platform false false true "https://example.org/" in
  let evs := [CallEnable (Rejected (mkError "NotAllowedError" "blocked"));
              PageVisible Resolved; CallEnable Resolved; IntervalFires 3] in
  let w := run evs (new_NoSleepJs p) in
  capabilities_fixed evs = true /\
  fields_populated w = true /\
  fst (disable w) = Normal tt.
Proof.
  intros p evs w.
  destruct (histories_keep_fields_populated p evs Resolved eq_refl) as (Hf & _ & Hd & _).
  split; [reflexivity|]. split; [exact Hf | exact Hd].
Defined.

Lemma run_fields_populated (evs : list Event) (w : World) :
  capabilities_fixed evs = true ->
  fields_populated w = true -> fields_populated (run evs w) = true.
Proof.
  revert w. induction evs as [|ev evs IH]; intros w Hevs Hw; simpl in *; [done|].
  apply andb_true_iff in Hevs as [Hev Hevs].
  apply IH; [done|]. apply step_fields_populated; [|done].
  by destruct (is_capability_change ev).
Qed.

Lemma new_fields_populated (p : Platform) : fields_populated (new_NoSleepJs p) = true.
Proof.
  rewrite new_NoSleepJs_spec. unfold fields_populated. simpl.
  by destruct (select_strategy p).
Qed.

(** ** When [enable] and [disable] throw *)

Lemma enable_throw_cases (w : World) (a : Answer) (e : JsError) :
  (fst (enable a w) = Throw e <->
     (a = Rejected e /\ select_strategy (platform w) = Native) \/
     (a = Rejected e /\ select_strategy (platform w) = Media /\
      is_Some (noSleepElement (this w))) \/
     (e = TypeError "play" /\ select_strategy (platform w) = Media /\
      noSleepElement (this w) = None)) /\
  (fst (enable a w) = Throw e -> isEnabled (snd (enable a w)) = false).
Proof.
  unfold select_strategy, isEnabled.
  destruct (wakeLock_in_navigator (platform w)) eqn:Hn;
    [|destruct (old_ios (platform w)) eqn:Ho].
  - destruct a as [|e'].
    + rewrite enable_native_resolved by done. simpl. split; [|done].
      split; [done|]. by intros [[? _]|[(? & _)|(_ & ? & _)]].
    + rewrite enable_native_rejected by done. simpl. split; [|done]. split.
      * intros [= ->]. by left.
      * by intros [[[= ->] _]|[(_ & ? & _)|(_ & ? & _)]].
  - rewrite enable_legacy by done. simpl. split; [|done].
    split; [done|]. by intros [[_ ?]|[(_ & ? & _)|(_ & ? & _)]].
  - rewrite enable_media by done.
    destruct (noSleepElement (this w)) as [el|] eqn:Hel; [destruct a as [|e']|]; simpl.
    + split; [|done]. split; [done|].
      by intros [[? _]|[(? & _)|(_ & _ & ?)]].
    + split; [|done]. split.
      * intros [= ->]. right. left. eauto.
      * by intros [[_ ?]|[([= ->] & _)|(_ & _ & ?)]].
    + split; [|done]. split.
      * intros [= <-]. right. right. done.
      * intros [[_ ?]|[(_ & _ & [? ?])|(-> & _)]]; done.
Qed.

Lemma disable_outside_missing_element (w : World) :
  ~ (select_strategy (platform w) = Media /\ noSleepElement (this w) = None) ->
  fst (disable w) = Normal tt /\
  isEnabled (snd (disable w)) = false /\
  disable (snd (disable w)) = (Normal tt, snd (disable w)).
Proof.
  unfold select_strategy, isEnabled. intros Hf.
  destruct (wakeLock_in_navigator (platform w)) eqn:Hn;
    [|destruct (old_ios (platform w)) eqn:Ho].
  - rewrite disable_native by done. simpl. do 2 (split; [done|]).
    rewrite disable_native; simpl.
    + by destruct (visibilityListener (this w)).
    + destruct (_wakeLock (this w)); try done.
      by rewrite (proj1 (released_platform_capabilities _ _)).
  - rewrite disable_legacy by done. simpl.
    destruct (noSleepTimer (this w)) eqn:Ht; simpl; do 2 (split; [done|]);
      rewrite disable_legacy by done; simpl; try rewrite Ht; done.
  - destruct (noSleepElement (this w)) as [el|] eqn:Hel; [|by destruct Hf].
    rewrite disable_media, Hel by done. simpl. do 2 (split; [done|]).
    by rewrite disable_media.
Qed.

(** C5, as the code has it: [enable()] throws in exactly three cases.  The
    platform rejects the wake-lock request under the native strategy, or it
    rejects the playback request under the video strategy: the error thrown
    is then the platform's own error, name and message included.  Or the
    video branch runs on an instance that has no video element: a TypeError
    is thrown whatever the platform would answer.  In every case [enabled]
    is false afterwards.  After a history that does not change the
    capability answers the third case cannot occur: [enable()] then throws
    exactly when the platform rejects the request of the native or of the
    video strategy chosen at construction. *)
Theorem enable_failure_cases
    (w : World) (a : Answer) (e : JsError) (p : Platform) (evs : list Event) :
  (fst (enable a w) = Throw e <->
     (a = Rejected e /\ select_strategy (platform w) = Native) \/
     (a = Rejected e /\ select_strategy (platform w) = Media /\
      is_Some (noSleepElement (this w))) \/
     (e = TypeError "play" /\ select_strategy (platform w) = Media /\
      noSleepElement (this w) = None)) /\
  (fst (enable a w) = Throw e -> isEnabled (snd (enable a w)) = false) /\
  (capabilities_fixed evs = true ->
   let w' := run evs (new_NoSleepJs p) in
   (fst (enable a w') = Throw e <->
      a = Rejected e /\ (select_strategy p = Native \/ select_strategy p = Media)) /\
   (fst (enable a w') = Throw e -> isEnabled (snd (enable a w')) = false)).
Proof.
  destruct (enable_throw_cases w a e) as [Hiff Hen].
  split; [done|]. split; [done|].
  intros Hevs w'.
  destruct (enable_throw_cases w' a e) as [Hiff' Hen']. split; [|done].
  assert (Hs : select_strategy (platform w') = select_strategy p).
  { subst w'. rewrite run_select_strategy by done. by rewrite new_NoSleepJs_spec. }
  assert (Hf : fields_populated w' = true)
    by (apply run_fields_populated; [done | apply new_fields_populated]).
  unfold fields_populated in Hf. rewrite Hs in *.
  rewrite Hiff'. split.
  - intros [[-> ->]|[(-> & -> & _)|(_ & Hm & Hnone)]]; [eauto|eauto|].
    rewrite Hm, Hnone in Hf. done.
  - intros [-> [Hn|Hm]]; [by left|]. right. left.
    rewrite Hm in Hf. apply bool_decide_eq_true in Hf. done.
Qed.

Lemma enable_failure_cases_witness :
  let p := fresh_platform false false false "https://example.org/" in
  let e := mkError "NotAllowedError" "play() failed because the user didn't interact with the document first." in
  let evs := [CallEnable Resolved; PageHidden; CallDisable] in
  let w' := run evs (new_NoSleepJs p) in
  capabilities_fixed evs = true /\
  fst (enable (Rejected e) w') = Throw e /\
  isEnabled (snd (enable (Rejected e) w')) = false.
Proof.
  intros p e evs w'.
  destruct (enable_failure_cases w' (Rejected e) e p evs) as (_ & _ & Hfixed).
  destruct (Hfixed eq_refl) as [Hiff Hen].
  assert (Ht : fst (enable (Rejected e) w') = Throw e).
  { apply Hiff. split; [reflexivity|]. right. reflexivity. }
  split; [reflexivity|]. split; [exact Ht | exact (Hen Ht)].
Defined.

(** C5, counterexample: a native instance is enabled, then neither
    capability is reported any more; the next [enable()] throws a TypeError
    although the platform would grant the request: no lock request was
    denied and no playback was blocked, and the error is not the
    platform's. *)
Lemma enable_throws_without_rejection :
  let w := run [CallEnable Resolved; CapabilitiesChange false false]
               (new_NoSleepJs (fresh_platform true false false "https://example.org/")) in
  fst (enable Resolved w) = Throw (TypeError "play") /\
  err_name (TypeError "play") = "TypeError" /\
  (forall e, Resolved <> Rejected e) /\
  ~ (forall a e, fst (enable a w) = Throw e <-> a = Rejected e).
Proof.
  intros w. split; [reflexivity|]. split; [reflexivity|]. split; [done|].
  intros H. pose proof (proj1 (H Resolved (TypeError "play")) eq_refl) as Hc.
  discriminate Hc.
Qed.

(** C7, as the code has it: [disable()] throws in exactly one situation,
    when the video branch runs on an instance that has no video element;
    it then throws a TypeError before it assigns [enabled], and the whole
    state is as before.  In every other state, never enabled and already
    disabled included, [disable()] returns normally, leaves [enabled]
    false, and a second [disable()] right after returns normally and
    changes nothing at all.  Every state reached from a constructed
    instance by a history that does not change the capability answers is
    such a state. *)
Theorem disable_failure_cases (w : World) (p : Platform) (evs : list Event) :
  (select_strategy (platform w) = Media /\ noSleepElement (this w) = None ->
   disable w = (Throw (TypeError "pause"), w)) /\
  (~ (select_strategy (platform w) = Media /\ noSleepElement (this w) = None) ->
   fst (disable w) = Normal tt /\
   isEnabled (snd (disable w)) = false /\
   disable (snd (disable w)) = (Normal tt, snd (disable w))) /\
  (capabilities_fixed evs = true ->
   let w' := run evs (new_NoSleepJs p) in
   fst (disable w') = Normal tt /\
   isEnabled (snd (disable w')) = false /\
   disable (snd (disable w')) = (Normal tt, snd (disable w'))).
Proof.
  split; [|split].
  - intros [Hsel Hel]. destruct (select_strategy_cases _ _ Hsel) as [Hn Ho].
    by rewrite disable_media, Hel.
  - apply disable_outside_missing_element.
  - intros Hevs w'. apply disable_outside_missing_element. intros [Hm Hnone].
    assert (Hf : fields_populated w' = true)
      by (apply run_fields_populated; [done | apply new_fields_populated]).
    unfold fields_populated in Hf. rewrite Hm, Hnone in Hf. done.
Qed.

Lemma disable_failure_cases_witness :
  let p := fresh_platform true false false "https://example.org/" in
  let evs := [CallEnable Resolved; PlatformRelease 0; CallEnable Resolved] in
  let w' := run evs (new_NoSleepJs p) in
  capabilities_fixed evs = true /\
  fst (disable w') = Normal tt /\
  isEnabled (snd (disable w')) = false /\
  disable (snd (disable w')) = (Normal tt, snd (disable w')).
Proof.
  intros p evs w'. split; [reflexivity|].
  exact (proj2 (proj2 (disable_failure_cases w' p evs)) eq_refl).
Defined.

(** C7, counterexample: a native instance is enabled, then neither
    capability is reported any more; [disable()] throws a TypeError,
    [enabled] is still true and the lock is still held. *)
Lemma disable_throws_without_element :
  let w := run [CallEnable Resolved; CapabilitiesChange false false]
               (new_NoSleepJs (fresh_platform true false false "https://example.org/")) in
  fst (disable w) = Throw (TypeError "pause") /\
  fst (disable w) <> Normal tt /\
  isEnabled (snd (disable w)) = true /\
  active_sentinels (snd (disable w)) = 1.
Proof. vm_compute. repeat split. discriminate. Qed.

(** Under the video strategy [enabled] can be false while the video plays:
    a granted [enable()] is followed by one the platform rejects. *)
Lemma media_rejected_after_granted :
  let e := mkError "NotAllowedError" "blocked" in
  let w := run [CallEnable Resolved; CallEnable (Rejected e)]
               (new_NoSleepJs (fresh_platform false false false "https://example.org/")) in
  isEnabled w = false /\ media_playing w = 1.
Proof. vm_compute. done. Qed.
